(** * Shotdeck scraper: a shallow embedding of [scraper.py]

    The development follows the layout of
    [src/shotdeck_scraper/scraper.py]: text helpers, the aspect-ratio
    classifier, tile and detail-panel parsing, the image fetcher, the
    incremental scrape loop, the spreadsheet writer and [main].

    Python values are modelled as follows.
    - [int] is [Z]; [//] is [Z.div] and [%] is [Z.modulo] (both round
      towards minus infinity, as Python does).
    - [float] is IEEE-754 binary64, given by [spec_float] with precision
      53 and maximal exponent 1024.
    - [str] is [string], read as a sequence of code points below 256.
    - a value that may be [None] is an [option]; a call that may raise is
      a [result].
    - [dict] is [gmap], [set] is [gset]. *)

From Stdlib Require Import ZArith String Ascii List Lia DecimalString.
From Stdlib Require Import Floats.SpecFloat.
From Equations Require Import Equations.
From stdpp Require Import base option list strings sorting gmap.

Open Scope string_scope.
Open Scope Z_scope.

(** ** Exceptions *)

(** The exception classes that the modelled code raises or catches.  All
    of them derive from [Exception], so a handler [except Exception]
    catches every one. *)
Inductive py_exn : Type :=
| ZeroDivisionError
| OverflowError
| ValueError
| NameError
| ImportError
| OSError
| RequestException
| NoSuchElementException
| StaleElementReferenceException
| ElementClickInterceptedException
| TimeoutException
| WebDriverException
| AttributeError
| KeyError.

Inductive result (A : Type) : Type :=
| Ret (a : A)
| Raise (e : py_exn).
Arguments Ret {A} a.
Arguments Raise {A} e.

Definition bind {A B : Type} (r : result A) (k : A -> result B) : result B :=
  match r with
  | Ret a => k a
  | Raise e => Raise e
  end.

Notation "'let*' x ':=' r 'in' k" := (bind r (fun x => k))
  (at level 10, x pattern, r at level 100, k at level 200).

(** [try: r except Exception: d] *)
Definition try_except {A : Type} (r : result A) (d : A) : A :=
  match r with
  | Ret a => a
  | Raise _ => d
  end.

(** ** Text helpers *)

Definition code (c : ascii) : N := N_of_ascii c.

(** [str.isspace] on one code point below 256, which is also the class
    [\s] of [re] on [str] patterns. *)
Definition is_space (c : ascii) : bool :=
  let n := code c in
  ((9 <=? n) && (n <=? 13) || (28 <=? n) && (n <=? 32)
   || (n =? 133) || (n =? 160))%N.

(** [str.lower] on one code point below 256. *)
Definition lower_char (c : ascii) : ascii :=
  let n := code c in
  if ((65 <=? n) && (n <=? 90)
      || (192 <=? n) && (n <=? 222) && negb (n =? 215))%N
  then ascii_of_N (n + 32) else c.

Fixpoint lower (s : string) : string :=
  match s with
  | EmptyString => EmptyString
  | String c s' => String (lower_char c) (lower s')
  end.

Fixpoint lstrip_by (p : ascii -> bool) (s : string) : string :=
  match s with
  | EmptyString => EmptyString
  | String c s' => if p c then lstrip_by p s' else s
  end.

Fixpoint rstrip_by (p : ascii -> bool) (s : string) : string :=
  match s with
  | EmptyString => EmptyString
  | String c s' =>
      match rstrip_by p s' with
      | EmptyString => if p c then EmptyString else String c EmptyString
      | r => String c r
      end
  end.

(** [s.strip()] *)
Definition strip (s : string) : string :=
  rstrip_by is_space (lstrip_by is_space s).

(** [re.sub(cls+, rep, s)] for a character class [cls]: every maximal run
    of characters of the class is replaced by [rep].  [in_run] tells that
    the previous character belonged to a run already replaced. *)
Fixpoint sub_runs (cls : ascii -> bool) (rep : string) (in_run : bool)
  (s : string) : string :=
  match s with
  | EmptyString => EmptyString
  | String c s' =>
      if cls c then
        if in_run then sub_runs cls rep true s'
        else rep ++ sub_runs cls rep true s'
      else String c (sub_runs cls rep false s')
  end.

(** [s.replace(a, b)] for single characters. *)
Fixpoint replace_char (a b : ascii) (s : string) : string :=
  match s with
  | EmptyString => EmptyString
  | String c s' =>
      String (if Ascii.eqb c a then b else c) (replace_char a b s')
  end.

(** [get_text(e)], applied to the rendered text [e.text]. *)
Definition get_text (text : string) : string :=
  sub_runs is_space " " false (strip text).

Definition is_colon (c : ascii) : bool := Ascii.eqb c ":".
Definition is_space_or_slash (c : ascii) : bool :=
  is_space c || Ascii.eqb c "/".

Definition normalize_field_name (label : string) : string :=
  let label := rstrip_by is_colon (strip label) in
  let label := sub_runs is_space_or_slash "_" false (lower label) in
  replace_char "-" "_" label.

(** [str(n)] for an [int]. *)
Definition str_of_int (n : Z) : string :=
  NilZero.string_of_int (Z.to_int n).

(** Python truthiness of a string and of a string that may be [None]. *)
Definition truthy (s : string) : bool :=
  match s with
  | EmptyString => false
  | String _ _ => true
  end.

Definition truthy_opt (v : option string) : bool :=
  match v with
  | Some s => truthy s
  | None => false
  end.

(** [v or ""] *)
Definition or_empty (v : option string) : string :=
  match v with
  | Some (String c s) => String c s
  | _ => ""
  end.

(** ** Integers and floats *)

(** The local function [gcd] of [calculate_image_metadata]:
    [while b: a, b = b, a % b]. *)
Equations? gcd (a b : Z) : Z by wf (Z.abs_nat b) lt :=
  gcd a b with Z.eq_dec b 0 => {
    | left _ := a;
    | right _ := gcd b (a mod b) }.
Proof.
  assert (Hm : Z.abs (a mod b) < Z.abs b) by (apply Z.mod_bound_abs; assumption).
  lia.
Qed.

Definition prec : Z := 53.
Definition emax : Z := 1024.

Definition fsub : spec_float -> spec_float -> spec_float := SFsub prec emax.
Definition fdiv : spec_float -> spec_float -> spec_float := SFdiv prec emax.
Definition fabs : spec_float -> spec_float := SFabs.
Definition flt : spec_float -> spec_float -> bool := SFltb.

(** The double nearest to the fraction [n / d] (ties to even): the value
    of a decimal literal such as [2.39] = 239/100, and of a true division
    of two positive integers. *)
Definition float_of_ratio (n d : positive) : spec_float :=
  fdiv (S754_finite false n 0) (S754_finite false d 0).

(** The quotients that round to a double: those below the midpoint of
    the largest double and [2^1024]. *)
Definition overflow_threshold : Z := 2 ^ 1024 - 2 ^ 970.

(** [a / b] on [int]s: the correctly rounded quotient; [ZeroDivisionError]
    for a zero divisor and [OverflowError] ("integer division result too
    large for a float") when the rounded quotient is not finite. *)
Definition int_true_div (a b : Z) : result spec_float :=
  match a, b with
  | _, Z0 => Raise ZeroDivisionError
  | Z0, _ => Ret (S754_zero (b <? 0))
  | _, _ =>
      if overflow_threshold * Z.abs b <=? Z.abs a then Raise OverflowError
      else
        let q := float_of_ratio (Z.to_pos (Z.abs a)) (Z.to_pos (Z.abs b)) in
        Ret (if Bool.eqb (a <? 0) (b <? 0) then q else SFopp q)
  end.

(** [n / d] rounded to the nearest integer, ties to even ([0 < d]). *)
Definition div_half_even (n d : Z) : Z :=
  let q := n / d in
  match 2 * (n mod d) ?= d with
  | Lt => q
  | Gt => q + 1
  | Eq => if Z.even q then q else q + 1
  end.

(** The magnitude of a finite float times 100, rounded to the nearest
    integer, ties to even: the digits that a correctly rounded conversion
    to two decimals produces. *)
Definition hundredths (x : spec_float) : Z :=
  match x with
  | S754_finite _ m e =>
      if 0 <=? e then Z.pos m * 2 ^ e * 100
      else div_half_even (Z.pos m * 100) (2 ^ (- e))
  | _ => 0
  end.

Definition sign_of (x : spec_float) : bool :=
  match x with
  | S754_zero s | S754_infinity s | S754_finite s _ _ => s
  | S754_nan => false
  end.

(** [round(x, 2)]: the double nearest to the two-decimal rounding of [x];
    infinities and NaN round to themselves. *)
Definition round2 (x : spec_float) : spec_float :=
  match x with
  | S754_finite s _ _ =>
      match hundredths x with
      | Zpos d =>
          let r := float_of_ratio d 100 in if s then SFopp r else r
      | _ => S754_zero s
      end
  | _ => x
  end.

(** The decimal digits of [d] hundredths: ["X.XX"]. *)
Definition two_decimals (d : Z) : string :=
  str_of_int (d / 100) ++ "."
  ++ str_of_int (d mod 100 / 10) ++ str_of_int (d mod 10).

(** [f"{x:.2f}"] *)
Definition format_2f (x : spec_float) : string :=
  match x with
  | S754_nan => "nan"
  | S754_infinity s => if s then "-inf" else "inf"
  | _ => (if sign_of x then "-" else "") ++ two_decimals (hundredths x)
  end.

(** ** Aspect-ratio classifier *)

(** The dict [cinema_standards], in insertion order. *)
Definition cinema_standards : list (spec_float * string) :=
  [ (float_of_ratio 239 100, "2.39:1");
    (float_of_ratio 235 100, "2.35:1");
    (float_of_ratio 185 100, "1.85:1");
    (float_of_ratio 178 100, "16:9");
    (float_of_ratio 166 100, "5:3");
    (float_of_ratio 133 100, "4:3");
    (float_of_ratio 100 100, "1:1") ].

(** [min(items, key=key)]: the first item is the current best, and a later
    item replaces it only when its key is strictly smaller; [ValueError]
    on an empty sequence. *)
Fixpoint min_from {A : Type} (key : A -> spec_float) (best : A) (l : list A) : A :=
  match l with
  | [] => best
  | x :: l' => min_from key (if flt (key x) (key best) then x else best) l'
  end.

Definition py_min {A : Type} (key : A -> spec_float) (l : list A) : result A :=
  match l with
  | [] => Raise ValueError
  | x :: l' => Ret (min_from key x l')
  end.

(** [abs(x - ratio)] *)
Definition distance (ratio x : spec_float) : spec_float :=
  fabs (fsub x ratio).

(** The entry of [cinema_standards] selected by
    [min(cinema_standards.keys(), key=lambda x: abs(x - ratio))], together
    with the label stored under that key. *)
Definition closest_standard (ratio : spec_float) : result (spec_float * string) :=
  py_min (fun e => distance ratio (fst e)) cinema_standards.

Definition five_percent : spec_float := float_of_ratio 5 100.

(** [abs(ratio - closest_ratio) / closest_ratio < 0.05] *)
Definition within_tolerance (ratio closest : spec_float) : bool :=
  flt (fdiv (fabs (fsub ratio closest)) closest) five_percent.

Definition aspect_ratio_fraction (width height : Z) : string :=
  let divisor := gcd width height in
  let ratio_width := width / divisor in
  let ratio_height := height / divisor in
  str_of_int ratio_width ++ ":" ++ str_of_int ratio_height.

Definition aspect_ratio_cinema (ratio : spec_float) : result string :=
  let* closest := closest_standard ratio in
  if within_tolerance ratio (fst closest) then Ret (snd closest)
  else Ret (format_2f (round2 ratio) ++ ":1").

(** [calculate_image_metadata(width, height)].  The returned tuple is the
    list of its components. *)
Definition calculate_image_metadata (width height : Z) : result (list string) :=
  if (width <=? 0) || (height <=? 0) then Ret [""; ""; ""]
  else
    let image_aspect_ratio_fraction := aspect_ratio_fraction width height in
    let* ratio := int_true_div width height in
    let* image_aspect_ratio_cinema := aspect_ratio_cinema ratio in
    Ret [image_aspect_ratio_fraction; image_aspect_ratio_cinema].


(** ** Rendered elements *)

(** A WebElement as the scraper reads it: its attributes and its rendered
    text.  A stale element (detached by a reflow of the page) raises
    [StaleElementReferenceException] on every access. *)
Record Element : Type := {
  el_stale : bool;
  el_attrs : gmap string string;
  el_text : string
}.

(** [e.get_attribute(name)]: [None] when the attribute is absent. *)
Definition get_attribute (e : Element) (name : string) : result (option string) :=
  if el_stale e then Raise StaleElementReferenceException
  else Ret (el_attrs e !! name).

(** [get_text(e)] on an element. *)
Definition get_text_of (e : Element) : result string :=
  if el_stale e then Raise StaleElementReferenceException
  else Ret (get_text (el_text e)).

(** [parent.find_element(By.CSS_SELECTOR, sel)], where [found] is the
    first descendant of [parent] matching the selector, if any. *)
Definition find_element {A : Type} (parent : Element) (found : option A) : result A :=
  if el_stale parent then Raise StaleElementReferenceException
  else match found with
       | Some e => Ret e
       | None => Raise NoSuchElementException
       end.

(** ** Tile scanner *)

(** The link [a.gallerythumb] of a tile and the image [img.still] in it. *)
Record Thumb : Type := {
  thumb_el : Element;
  thumb_still : option Element
}.

(** A tile [#stills .outerimage]: the element itself, its title
    [.moviedetails.topdetails .gallerytitle] and its thumbnail link. *)
Record TileDom : Type := {
  tile_el : Element;
  tile_title : option Element;
  tile_thumb : option Thumb
}.

(** The dicts built by the parsers: a value may be [None]. *)
Abbreviation record := (gmap string (option string)).

Definition parse_tile_basic (tile : TileDom) : result record :=
  let d : record := ∅ in
  let* shot_id := get_attribute (tile_el tile) "data-shotid" in
  let d := <["shot_id" := Some (or_empty shot_id)]> d in
  let* titleyear := get_attribute (tile_el tile) "data-titleyear" in
  let d := <["titleyear" := Some (or_empty titleyear)]> d in
  let* shot_status := get_attribute (tile_el tile) "data-shot-status" in
  let d := <["shot_status" := Some (or_empty shot_status)]> d in
  let* status := get_attribute (tile_el tile) "data-title-content-status" in
  let d := <["title_content_status" := Some (or_empty status)]> d in
  let grid_title_raw :=
    try_except
      (let* title_el := find_element (tile_el tile) (tile_title tile) in
       let* text := get_text_of title_el in
       Ret (Some text))
      (Some "") in
  let d := <["grid_title_raw" := grid_title_raw]> d in
  let thumb_src :=
    try_except
      (let* thumb :=
         find_element (tile_el tile)
           (a ← tile_thumb tile; thumb_still a) in
       get_attribute thumb "src")
      (Some "") in
  let d := <["thumb_src" := thumb_src]> d in
  let data_filename :=
    try_except
      (let* a := find_element (tile_el tile) (tile_thumb tile) in
       get_attribute (thumb_el a) "data-filename")
      (Some "") in
  let d := <["data_filename" := data_filename]> d in
  Ret d.

(** Two tiles for the examples: one whose image carries no [src]
    attribute (a lazily loaded image keeps its address in [data-src]) and
    whose link carries no [data-filename]; and the same tile once a reflow
    has detached it. *)
Definition live (attrs : gmap string string) (text : string) : Element :=
  {| el_stale := false; el_attrs := attrs; el_text := text |}.

Definition tile_without_src : TileDom :=
  {| tile_el := live {[ "data-shotid" := "AB12CD" ]} "";
     tile_title := Some (live ∅ "Heat  (1995)");
     tile_thumb :=
       Some {| thumb_el := live {[ "href" := "#" ]} "";
               thumb_still :=
                 Some (live {[ "data-src" := "https://cdn.example/t.jpg" ]} "") |} |}.

Definition tile_detached : TileDom :=
  {| tile_el :=
       {| el_stale := true; el_attrs := {[ "data-shotid" := "AB12CD" ]};
          el_text := "" |};
     tile_title := tile_title tile_without_src;
     tile_thumb := tile_thumb tile_without_src |}.

(** ** Detail-panel extractor *)

(** [sep.join(l)] *)
Definition join (sep : string) (l : list string) : string :=
  String.concat sep l.

Fixpoint map_result {A B : Type} (f : A -> result B) (l : list A) : result (list B) :=
  match l with
  | [] => Ret []
  | x :: l' =>
      let* y := f x in
      let* ys := map_result f l' in
      Ret (y :: ys)
  end.

(** [s] without the prefix [p], when [s] starts with [p]. *)
Fixpoint drop_prefix (p s : string) : option string :=
  match p, s with
  | EmptyString, _ => Some s
  | String a p', String b s' =>
      if Ascii.eqb a b then drop_prefix p' s' else None
  | String _ _, EmptyString => None
  end.

Fixpoint until_semicolon (s : string) : string :=
  match s with
  | EmptyString => EmptyString
  | String c s' =>
      if Ascii.eqb c ";" then EmptyString else String c (until_semicolon s')
  end.

(** The leading white space of [s] is skipped; the result is the last
    character skipped (if any) and what follows. *)
Fixpoint skip_spaces (last : option ascii) (s : string) : option ascii * string :=
  match s with
  | EmptyString => (last, EmptyString)
  | String c s' => if is_space c then skip_spaces (Some c) s' else (last, s)
  end.

(** Group 1 of [\s*([^;]+);?] matched at the start of [s]: the text up to
    the next semicolon after the leading white space; when nothing is
    left there, the greedy [\s*] gives back its last character. *)
Definition color_value (s : string) : option string :=
  let '(last, rest) := skip_spaces None s in
  match until_semicolon rest, last with
  | String c v, _ => Some (String c v)
  | EmptyString, Some c => Some (String c EmptyString)
  | EmptyString, None => None
  end.

(** [re.search(r'background-color:\s*([^;]+);?', style)], group 1 of the
    leftmost match; [None] when there is no match. *)
Fixpoint search_background_color (style : string) : option string :=
  let here :=
    match drop_prefix "background-color:" style with
    | Some rest => color_value rest
    | None => None
    end in
  match here, style with
  | Some v, _ => Some v
  | None, String _ style' => search_background_color style'
  | None, EmptyString => None
  end.

(** One swatch of the list comprehension: skipped when its style is
    empty; [.group(1)] on no match raises [AttributeError]. *)
Definition swatch_color (a : Element) : result (option string) :=
  let* style := get_attribute a "style" in
  if truthy_opt style then
    match search_background_color (or_empty style) with
    | Some v => Ret (Some v)
    | None => Raise AttributeError
    end
  else Ret None.

Definition palette_hex (swatches : list Element) : result string :=
  let* colors := map_result swatch_color swatches in
  Ret (join "," (omap id colors)).

(** The block [.details] of a detail group: the element, its spans
    [span.full_location, span.full_filming_location] and its links [a],
    both in document order. *)
Record DetailsDiv : Type := {
  div_el : Element;
  div_spans : list Element;
  div_anchors : list Element
}.

(** A group [#shot_details .detail-group]. *)
Record DetailGroup : Type := {
  grp_el : Element;
  grp_type : option Element;
  grp_details : option DetailsDiv
}.

(** The body of the loop over the groups, inside its [try]. *)
Definition parse_group (g : DetailGroup) : result (string * string) :=
  let* type_el := find_element (grp_el g) (grp_type g) in
  let* type_text :=
    if el_stale type_el then Raise StaleElementReferenceException
    else Ret (el_text type_el) in
  let label := normalize_field_name type_text in
  let* details_div := find_element (grp_el g) (grp_details g) in
  let* spans :=
    if el_stale (div_el details_div) then Raise StaleElementReferenceException
    else Ret (div_spans details_div) in
  let* full :=
    match spans with
    | span :: _ => let* t := get_text_of span in Ret (Some t)
    | [] => Ret None
    end in
  let* value :=
    if truthy_opt full then Ret (or_empty full)
    else
      match div_anchors details_div with
      | a :: anchors =>
          let* texts := map_result get_text_of (a :: anchors) in
          Ret (join ", " texts)
      | [] => get_text_of (div_el details_div)
      end in
  Ret (label, value).

(** One iteration of [for g in groups]: a group whose extraction raises
    is skipped. *)
Definition record_group (data : record) (g : DetailGroup) : record :=
  match parse_group g with
  | Ret (label, value) => <[label := Some value]> data
  | Raise _ => data
  end.

(** The open detail view as [parse_modal] reads it. *)
Record ModalDom : Type := {
  modal_title : result Element;
  modal_swatches : result (list Element);
  modal_groups : result (list DetailGroup);
  modal_hero_link : option Element;
  modal_hero_img : option Element
}.

Definition live_driver : Element :=
  {| el_stale := false; el_attrs := ∅; el_text := "" |}.

Definition parse_modal (m : ModalDom) : result record :=
  let data : record := ∅ in
  let title_year_raw :=
    try_except (let* title_hdr := modal_title m in get_text_of title_hdr) "" in
  let data := <["title_year_raw" := Some title_year_raw]> data in
  let palette :=
    try_except (let* swatches := modal_swatches m in palette_hex swatches) "" in
  let data := <["palette_hex" := Some palette]> data in
  let* groups := modal_groups m in
  let data := foldl record_group data groups in
  let img_url :=
    try_except
      (let* a := find_element live_driver (modal_hero_link m) in
       get_attribute a "href")
      (try_except
         (let* img := find_element live_driver (modal_hero_img m) in
          get_attribute img "src")
         (Some "")) in
  let data := <["image_url" := img_url]> data in
  Ret data.

(** The precedence rule for the value of a group as the specification
    words it: the text of the first full-location span if there is one,
    else the link texts joined with [", "] if there are links, else the
    flattened text of the block. *)
Definition stated_group_value (d : DetailsDiv) : string :=
  match div_spans d with
  | span :: _ => get_text (el_text span)
  | [] =>
      match div_anchors d with
      | _ :: _ => join ", " (map (fun a => get_text (el_text a)) (div_anchors d))
      | [] => get_text (el_text (div_el d))
      end
  end.

(** The same rule with the guard [if full:] of the code: a span whose
    normalised text is empty does not count. *)
Definition guarded_group_value (d : DetailsDiv) : string :=
  let fallback :=
    match div_anchors d with
    | _ :: _ => join ", " (map (fun a => get_text (el_text a)) (div_anchors d))
    | [] => get_text (el_text (div_el d))
    end in
  match div_spans d with
  | span :: _ =>
      if truthy (get_text (el_text span)) then get_text (el_text span)
      else fallback
  | [] => fallback
  end.

Definition all_live (l : list Element) : Prop :=
  Forall (fun e => el_stale e = false) l.

(** A group "Location" whose full-location span is rendered blank and
    that has two links. *)
Definition blank_span_details : DetailsDiv :=
  {| div_el := live ∅ "Paris France";
     div_spans := [live ∅ "  "];
     div_anchors := [live ∅ "Paris"; live ∅ "France"] |}.

Definition blank_span_group : DetailGroup :=
  {| grp_el := live ∅ "Location: Paris France";
     grp_type := Some (live ∅ "Location:");
     grp_details := Some blank_span_details |}.

(** A group with a full-location span and links. *)
Definition full_location_group : DetailGroup :=
  {| grp_el := live ∅ "";
     grp_type := Some (live ∅ "Filming Location:");
     grp_details :=
       Some {| div_el := live ∅ "Chicago Illinois Chicago, Illinois, USA";
               div_spans := [live ∅ " Chicago,  Illinois, USA "];
               div_anchors := [live ∅ "Chicago"; live ∅ "Illinois"] |} |}.

(** ** Image fetcher *)

(** [s.split(sep)[0]]: the text before the first [sep]. *)
Fixpoint before_first (sep : ascii) (s : string) : string :=
  match s with
  | EmptyString => EmptyString
  | String c s' =>
      if Ascii.eqb c sep then EmptyString else String c (before_first sep s')
  end.

(** The text after the last [sep], or all of [s] without one. *)
Fixpoint after_last (sep : ascii) (s : string) : string :=
  match s with
  | EmptyString => EmptyString
  | String c s' =>
      if existsb (Ascii.eqb sep) (list_ascii_of_string s') then after_last sep s'
      else if Ascii.eqb c sep then s' else s
  end.

(** The extension of a file name: from its last dot on, unless only dots
    precede that dot. *)
Fixpoint extension_from (seen_other : bool) (name : string) : string :=
  match name with
  | EmptyString => EmptyString
  | String c name' =>
      let is_dot := Ascii.eqb c "." in
      let later := extension_from (seen_other || negb is_dot) name' in
      if is_dot && seen_other
         && negb (existsb (Ascii.eqb ".") (list_ascii_of_string name'))
      then name
      else later
  end.

(** [os.path.splitext(p)[1]] for POSIX paths. *)
Definition splitext_ext (p : string) : string :=
  extension_from false (after_last "/" p).

Definition image_extensions : list string := [".jpg"; ".jpeg"; ".png"; ".webp"].

Definition in_list (s : string) (l : list string) : bool :=
  existsb (String.eqb s) l.

(** [str(out_dir / name)] for a relative file name. *)
Definition path_join (out_dir name : string) : string :=
  out_dir ++ "/" ++ name.

(** What the outside world answers to one call of [save_image]:
    [ensure_dir(out_dir)]; [session.get] followed by [raise_for_status],
    giving the body; writing the file; importing Pillow; and
    [Image.open], giving width and height. *)
Record Fetch : Type := {
  fetch_mkdir : result unit;
  fetch_response : result string;
  fetch_write : result unit;
  fetch_pillow : result unit;
  fetch_decoded : result (Z * Z)
}.

Abbreviation image_info := (string * string * string * string * string)%type.

Definition no_image : image_info := ("", "", "", "", "").

(** [a, b = t]: unpacking a tuple into two names. *)
Definition unpack2 (t : list string) : result (string * string) :=
  match t with
  | [a; b] => Ret (a, b)
  | _ => Raise ValueError
  end.

(** The inner [try] of [save_image], after the file is written. *)
Definition measure_image (f : Fetch) (out_path : string) : image_info :=
  try_except
    (let* _ := fetch_pillow f in
     let* img := fetch_decoded f in
     let width := fst img in
     let height := snd img in
     let image_width := str_of_int width in
     let image_height := str_of_int height in
     let* meta := calculate_image_metadata width height in
     let* ratios := unpack2 meta in
     Ret (out_path, image_width, image_height, fst ratios, snd ratios))
    (out_path, "", "", "", "").

(** [save_image(session, url, out_dir, shot_id)] with the default
    [fallback_ext]; [files] are the files on disk, by path. *)
Definition save_image (f : Fetch) (url : option string) (out_dir shot_id : string)
    (files : gmap string string) : gmap string string * result image_info :=
  if negb (truthy_opt url) then (files, Ret no_image)
  else
    match fetch_mkdir f with
    | Raise e => (files, Raise e)
    | Ret _ =>
        let fallback_ext := ".jpg" in
        let ext := lower (splitext_ext (before_first "?" (or_empty url))) in
        let ext := if truthy ext then ext else fallback_ext in
        let ext := if in_list ext image_extensions then ext else fallback_ext in
        let out_path := path_join out_dir (shot_id ++ ext) in
        match (let* content := fetch_response f in
               let* _ := fetch_write f in
               Ret content) with
        | Raise _ => (files, Ret no_image)
        | Ret content =>
            (<[out_path := content]> files, Ret (measure_image f out_path))
        end
    end.

Definition raises {A : Type} (r : result A) : Prop :=
  exists e, r = Raise e.

(** The download succeeds and the image cannot be decoded. *)
Definition undecodable_fetch : Fetch :=
  {| fetch_mkdir := Ret tt;
     fetch_response := Ret "<html>not an image</html>";
     fetch_write := Ret tt;
     fetch_pillow := Ret tt;
     fetch_decoded := Raise OSError |}.

(** The download succeeds and the image is 1920 by 1080. *)
Definition hd_fetch : Fetch :=
  {| fetch_mkdir := Ret tt;
     fetch_response := Ret "JFIF";
     fetch_write := Ret tt;
     fetch_pillow := Ret tt;
     fetch_decoded := Ret (1920, 1080) |}.

(** ** Spreadsheet writer *)

(** A spreadsheet as [to_excel] writes it: the header and the cells of
    each row, in column order. *)
Record Sheet : Type := {
  sheet_columns : list string;
  sheet_body : list (list string)
}.

Definition newline : ascii := ascii_of_N 10.

(** The leading white space of [s]. *)
Fixpoint space_run (s : string) : list ascii :=
  match s with
  | EmptyString => []
  | String c s' => if is_space c then c :: space_run s' else []
  end.

(** [re.sub(r"\s+\n\s+|\n", " ", s)]: a run of white space with a newline
    that is neither its first nor its last character becomes one space;
    any other newline becomes a space.  [skip] counts the characters of a
    run already replaced. *)
Fixpoint sub_newlines (skip : nat) (s : string) : string :=
  match s with
  | EmptyString => EmptyString
  | String c s' =>
      match skip with
      | S k => sub_newlines k s'
      | O =>
          if is_space c then
            let run := space_run s' in
            if existsb (Ascii.eqb newline) (removelast run)
            then String " " (sub_newlines (List.length run) s')
            else if Ascii.eqb c newline then String " " (sub_newlines 0 s')
            else String c (sub_newlines 0 s')
          else String c (sub_newlines 0 s')
      end
  end.

Definition clean_cell (s : string) : string :=
  strip (sub_newlines 0 s).

Fixpoint insert_sorted (x : string) (l : list string) : list string :=
  match l with
  | [] => [x]
  | y :: l' => if String.leb x y then x :: l else y :: insert_sorted x l'
  end.

(** [sorted(l)] on strings. *)
Definition sorted (l : list string) : list string :=
  foldr insert_sorted [] l.

Definition fixed_columns : list string :=
  ([ "shot_id"; "grid_title_raw"; "titleyear"; "title_year_raw";
     "shot_status"; "title_content_status";
     "thumb_src"; "data_filename"; "image_url"; "image_path" ]
   ++ [ "image_width"; "image_height"; "image_aspect_ratio_fraction";
        "image_aspect_ratio_cinema" ])%list.

(** The type that [pd.DataFrame(rows)] gives to a column.  A key that a
    row lacks is NaN in the frame.  A column with a string is a column of
    objects, and so is a column of [None] alone; a column of [None] and
    NaN without a string is inferred to be a column of floats, in which
    [None] is NaN as well. *)
Inductive dtype : Type :=
| object
| float64.

Definition column_dtype (rows : list record) (c : string) : dtype :=
  if forallb (fun row : record =>
                match row !! c with Some (Some _) => false | _ => true end) rows
     && existsb (fun row : record =>
                   match row !! c with None => true | _ => false end) rows
  then float64 else object.

(** One cell of the frame after [astype(str)]: [None] stays [None] in a
    column of objects and is NaN in a column of floats; a key absent from
    the row is NaN when some other row has it, and [""] when the whole
    column was added by the loop over [cols]. *)
Definition cell (frame_columns : gset string) (dtypes : string -> dtype)
    (row : record) (c : string) : string :=
  match row !! c with
  | Some (Some s) => clean_cell s
  | Some None =>
      match dtypes c with
      | object => clean_cell "None"
      | float64 => clean_cell "nan"
      end
  | None => if bool_decide (c ∈ frame_columns) then clean_cell "nan" else ""
  end.

(** [save_progress(rows, all_fields, filename)]; [sheets] are the
    spreadsheets on disk, by path.  The write itself is taken to
    succeed. *)
Definition save_progress (rows : list record) (all_fields : gset string)
    (filename : string) (sheets : gmap string Sheet) : gmap string Sheet :=
  match rows with
  | [] => sheets
  | _ :: _ =>
      let cols := fixed_columns in
      let dynamic :=
        sorted (List.filter (fun c => negb (in_list c cols))
                  (elements all_fields)) in
      let cols := (cols ++ dynamic)%list in
      let frame_columns : gset string := ⋃ (map dom rows) in
      let body :=
        map (fun row => map (cell frame_columns (column_dtype rows) row) cols)
          rows in
      <[filename := {| sheet_columns := cols; sheet_body := body |}]> sheets
  end.

(** ** Incremental scrape engine *)

(** What the browser shows for one tile of one scan: the tile itself, the
    outcome of [open_shot_modal], the detail view that [parse_modal]
    reads, the outcome of [close_modal] and the answers to [save_image]. *)
Record TileObs : Type := {
  obs_tile : TileDom;
  obs_open : result unit;
  obs_modal : ModalDom;
  obs_close : result unit;
  obs_fetch : Fetch
}.

(** What the browser shows during one cycle of the loop: the tiles
    [#stills .outerimage] in rendering order, the outcome of the scroll
    to the bottom, and the scroll height read after it. *)
Record CycleObs : Type := {
  cyc_tiles : result (list TileObs);
  cyc_scroll : result unit;
  cyc_height : result Z
}.

(** The calls of the engine that concern one shot, and the start of a
    cycle of the loop. *)
Inductive Event : Type :=
| EvCycle
| EvOpen (shot_id : string)
| EvExtract (shot_id : string)
| EvRecord (shot_id : string)
| EvSeen (shot_id : string).

(** The state of a run: the locals of [incremental_scrape], the global
    set [processed_shots], the image files and spreadsheets on disk, and
    the events so far, oldest first. *)
Record Engine : Type := {
  rows : list record;
  all_fields : gset string;
  last_height : Z;
  processed_count : Z;
  consecutive_no_new : Z;
  new_tiles_processed : Z;
  processed_shots : gset string;
  files : gmap string string;
  sheets : gmap string Sheet;
  events : list Event
}.

Definition log (ev : Event) (st : Engine) : Engine :=
  {| rows := rows st; all_fields := all_fields st;
     last_height := last_height st; processed_count := processed_count st;
     consecutive_no_new := consecutive_no_new st;
     new_tiles_processed := new_tiles_processed st;
     processed_shots := processed_shots st; files := files st;
     sheets := sheets st; events := events st ++ [ev] |}.

Definition with_files (fs : gmap string string) (st : Engine) : Engine :=
  {| rows := rows st; all_fields := all_fields st;
     last_height := last_height st; processed_count := processed_count st;
     consecutive_no_new := consecutive_no_new st;
     new_tiles_processed := new_tiles_processed st;
     processed_shots := processed_shots st; files := fs;
     sheets := sheets st; events := events st |}.

Definition with_sheets (sh : gmap string Sheet) (st : Engine) : Engine :=
  {| rows := rows st; all_fields := all_fields st;
     last_height := last_height st; processed_count := processed_count st;
     consecutive_no_new := consecutive_no_new st;
     new_tiles_processed := new_tiles_processed st;
     processed_shots := processed_shots st; files := files st;
     sheets := sh; events := events st |}.

(** [rows.append(record)], [all_fields.update(record.keys())],
    [processed_shots.add(shot_id)] and the two counters. *)
Definition mark_processed (shot_id : string) (row : record) (st : Engine) : Engine :=
  {| rows := rows st ++ [row]; all_fields := all_fields st ∪ dom row;
     last_height := last_height st;
     processed_count := processed_count st + 1;
     consecutive_no_new := consecutive_no_new st;
     new_tiles_processed := new_tiles_processed st + 1;
     processed_shots := processed_shots st ∪ {[ shot_id ]};
     files := files st; sheets := sheets st;
     events := events st ++ [EvRecord shot_id; EvSeen shot_id] |}.

Definition begin_cycle (st : Engine) : Engine :=
  {| rows := rows st; all_fields := all_fields st;
     last_height := last_height st; processed_count := processed_count st;
     consecutive_no_new := consecutive_no_new st;
     new_tiles_processed := 0;
     processed_shots := processed_shots st; files := files st;
     sheets := sheets st; events := events st |}.

Definition with_no_new (n : Z) (st : Engine) : Engine :=
  {| rows := rows st; all_fields := all_fields st;
     last_height := last_height st; processed_count := processed_count st;
     consecutive_no_new := n;
     new_tiles_processed := new_tiles_processed st;
     processed_shots := processed_shots st; files := files st;
     sheets := sheets st; events := events st |}.

Definition with_height (h : Z) (st : Engine) : Engine :=
  {| rows := rows st; all_fields := all_fields st;
     last_height := h; processed_count := processed_count st;
     consecutive_no_new := consecutive_no_new st;
     new_tiles_processed := new_tiles_processed st;
     processed_shots := processed_shots st; files := files st;
     sheets := sheets st; events := events st |}.

(** The names bound at module level of [scraper.py] to a string.  A name
    that a function reads without assigning it is looked up here; the
    other module-level names are modules, classes, functions and the set
    [processed_shots]. *)
Definition module_globals : gmap string string :=
  {[ "BASE" := "https://shotdeck.com";
     "LOGIN_URL" := "https://shotdeck.com/welcome/login" ]}.

Definition max_consecutive_no_new : Z := 3.

(** The record of a processed shot:
    [{**basic_info, **details, "image_path": ..., ...}]. *)
Definition make_record (basic_info details : record) (info : image_info) : record :=
  let '(image_path, image_width, image_height, fraction, cinema) := info in
  <["image_aspect_ratio_cinema" := Some cinema]>
    (<["image_aspect_ratio_fraction" := Some fraction]>
       (<["image_height" := Some image_height]>
          (<["image_width" := Some image_width]>
             (<["image_path" := Some image_path]> (details ∪ basic_info))))).

Inductive flow : Type :=
| Break (st : Engine)
| Continue (st : Engine).

Section Engine.
Variable globals : gmap string string.
Variable script : nat -> CycleObs.
Variable max_shots : Z.
Variable img_dir : string.
Variable batch_size : Z.

(** "Save progress periodically": the [if] after the counters.  The name
    [base_output_dir] is not assigned in [incremental_scrape], so it is
    read from the module globals. *)
Definition checkpoint (st : Engine) : result Engine :=
  if batch_size =? 0 then Raise ZeroDivisionError
  else if processed_count st mod batch_size =? 0 then
    match globals !! "base_output_dir" with
    | None => Raise NameError
    | Some base_output_dir =>
        Ret (with_sheets
               (save_progress (rows st) (all_fields st)
                  (path_join base_output_dir "shotdeck_progress_temp.xlsx")
                  (sheets st)) st)
    end
  else Ret st.

(** The body of [for tile in tiles] after the [break] test: the [try]
    with its handler [except Exception: continue]. *)
Definition process_tile (st : Engine) (t : TileObs) : Engine :=
  match parse_tile_basic (obs_tile t) with
  | Raise _ => st
  | Ret basic_info =>
      let shot_id := default None (basic_info !! "shot_id") in
      if negb (truthy_opt shot_id)
         || bool_decide (or_empty shot_id ∈ processed_shots st)
      then st
      else
        let shot_id := or_empty shot_id in
        let st := log (EvOpen shot_id) st in
        match obs_open t with
        | Raise _ => st
        | Ret _ =>
            let st := log (EvExtract shot_id) st in
            match parse_modal (obs_modal t) with
            | Raise _ => st
            | Ret details =>
                match obs_close t with
                | Raise _ => st
                | Ret _ =>
                    let url := default (Some "") (details !! "image_url") in
                    let saved :=
                      save_image (obs_fetch t) url img_dir shot_id (files st) in
                    let st := with_files (fst saved) st in
                    match snd saved with
                    | Raise _ => st
                    | Ret info =>
                        let row := make_record basic_info details info in
                        let st := mark_processed shot_id row st in
                        try_except (checkpoint st) st
                    end
                end
            end
        end
  end.

(** [for tile in tiles] with its [break]. *)
Fixpoint process_tiles (st : Engine) (tiles : list TileObs) : Engine :=
  match tiles with
  | [] => st
  | t :: tiles' =>
      if max_shots <=? processed_count st then st
      else process_tiles (process_tile st t) tiles'
  end.

(** The body of the [while] loop, for the [n]-th cycle. *)
Definition scrape_cycle (n : nat) (st : Engine) : flow :=
  let st := log EvCycle st in
  match cyc_tiles (script n) with
  | Raise _ => Break st
  | Ret tiles =>
      let st := process_tiles (begin_cycle st) tiles in
      let st :=
        if new_tiles_processed st =? 0
        then with_no_new (consecutive_no_new st + 1) st
        else with_no_new 0 st in
      if (max_consecutive_no_new <=? consecutive_no_new st)
         || (max_shots <=? processed_count st)
      then Break st
      else
        match cyc_scroll (script n) with
        | Raise _ => Break st
        | Ret _ =>
            match cyc_height (script n) with
            | Raise _ => Break st
            | Ret new_height =>
                if new_height =? last_height st then Break st
                else Continue (with_height new_height st)
            end
        end
  end.

(** [while processed_count < max_shots], run for at most [fuel] cycles. *)
Fixpoint scrape_loop (fuel : nat) (n : nat) (st : Engine) : option Engine :=
  if max_shots <=? processed_count st then Some st
  else
    match fuel with
    | O => None
    | S fuel' =>
        match scrape_cycle n st with
        | Break st' => Some st'
        | Continue st' => scrape_loop fuel' (S n) st'
        end
    end.

(** The state on entry of the loop. *)
Definition start (initial_height : Z) (seen : gset string)
    (fs : gmap string string) (sh : gmap string Sheet) : Engine :=
  {| rows := []; all_fields := ∅; last_height := initial_height;
     processed_count := 0; consecutive_no_new := 0;
     new_tiles_processed := 0; processed_shots := seen;
     files := fs; sheets := sh; events := [] |}.

(** Every cycle that continues either processes a shot or counts one more
    cycle without a new one, so this many cycles are enough. *)
Definition enough_cycles : nat := Z.to_nat (3 * max_shots + 3).

Definition incremental_scrape (initial_height : Z) (seen : gset string)
    (fs : gmap string string) (sh : gmap string Sheet) : option Engine :=
  scrape_loop enough_cycles 0 (start initial_height seen fs sh).

End Engine.

(** ** Main *)

(** The command-line arguments that the run depends on. *)
Record Args : Type := {
  arg_max_shots : Z;
  arg_out_xlsx : string;
  arg_images_dir : string;
  arg_batch_size : Z
}.

(** What a run of [main] leaves behind: how it ended, the rows scraped
    and the state of the disk. *)
Record Outcome : Type := {
  out_exit : result unit;
  out_rows : list record;
  out_files : gmap string string;
  out_sheets : gmap string Sheet;
  out_events : list Event
}.

(** [main()] after the credentials are read.  [bootstrap] is the outcome
    of the login, the navigation and [wait_for_gallery];
    [initial_height] is the first read of the scroll height, on entry of
    [incremental_scrape].  When one of them raises, [rows] is not bound in
    [main] and the handler writes no backup.  The global
    [processed_shots] is empty when the module is loaded. *)
Definition main (args : Args) (base_output_dir : string)
    (bootstrap : result unit) (initial_height : result Z)
    (script : nat -> CycleObs)
    (fs : gmap string string) (sh : gmap string Sheet) : option Outcome :=
  let failed e :=
    Some {| out_exit := Raise e; out_rows := []; out_files := fs;
            out_sheets := sh; out_events := [] |} in
  match bootstrap with
  | Raise e => failed e
  | Ret _ =>
      let img_dir := path_join base_output_dir (arg_images_dir args) in
      let out_xlsx := path_join base_output_dir (arg_out_xlsx args) in
      match initial_height with
      | Raise e => failed e
      | Ret height =>
          st ← incremental_scrape module_globals script (arg_max_shots args)
                 img_dir (arg_batch_size args) height ∅ fs sh;
          Some {| out_exit := Ret tt; out_rows := rows st;
                  out_files := files st;
                  out_sheets :=
                    save_progress (rows st) (all_fields st) out_xlsx (sheets st);
                  out_events := events st |}
      end
  end.

(** ** Event logs *)

(** Replaying a log from a seen-set.  A shot may be opened, extracted or
    recorded only while it is not in the set; a record must be followed at
    once by the mark of the same shot, which puts it in the set.  The
    state is the shot recorded and not yet marked, if any, and the set;
    the result is [None] when the log breaks the rule. *)
Definition log_state : Type := option string * gset string.

Definition replay_event (s : log_state) (ev : Event) : option log_state :=
  match fst s, ev with
  | Some id, EvSeen id' =>
      if bool_decide (id = id') then Some (None, snd s ∪ {[ id ]}) else None
  | Some _, _ => None
  | None, EvCycle => Some s
  | None, EvOpen id | None, EvExtract id =>
      if bool_decide (id ∈ snd s) then None else Some s
  | None, EvRecord id =>
      if bool_decide (id ∈ snd s) then None else Some (Some id, snd s)
  | None, EvSeen _ => None
  end.

Fixpoint replay (s : log_state) (evs : list Event) : option log_state :=
  match evs with
  | [] => Some s
  | ev :: evs' => s' ← replay_event s ev; replay s' evs'
  end.

(** The shot an event is about. *)
Definition event_shot (ev : Event) : option string :=
  match ev with
  | EvCycle => None
  | EvOpen id | EvExtract id | EvRecord id | EvSeen id => Some id
  end.

(** No event of the log is about the shot [id]. *)
Definition untouched (id : string) (evs : list Event) : Prop :=
  Forall (fun ev => event_shot ev <> Some id) evs.

(** The shots recorded, in order. *)
Definition recorded (evs : list Event) : list string :=
  omap (fun ev => match ev with EvRecord id => Some id | _ => None end) evs.

(** The number of cycles of the loop. *)
Definition cycles (evs : list Event) : Z :=
  Z.of_nat (List.length (List.filter (fun ev => match ev with EvCycle => true | _ => false end) evs)).

(** ** Steps of a run *)

(** The state changes made while one tile is processed. *)
Inductive tile_step : Engine -> Engine -> Prop :=
| ts_open st id :
    id ∉ processed_shots st -> tile_step st (log (EvOpen id) st)
| ts_extract st id :
    id ∉ processed_shots st -> tile_step st (log (EvExtract id) st)
| ts_files st fs :
    tile_step st (with_files fs st)
| ts_mark st id row :
    id ∉ processed_shots st -> tile_step st (mark_processed id row st)
| ts_checkpoint st fields path :
    tile_step st
      (with_sheets (save_progress (rows st) fields path (sheets st)) st).

(** The state changes of the loop. *)
Inductive engine_step : Engine -> Engine -> Prop :=
| es_tile st st' : tile_step st st' -> engine_step st st'
| es_cycle st : engine_step st (log EvCycle st)
| es_begin st : engine_step st (begin_cycle st)
| es_no_new st n : engine_step st (with_no_new n st)
| es_height st h : engine_step st (with_height h st).

(** What a run maintains, from the seen-set [seen0] and the spreadsheets
    [sh0] it starts with: the log replays to the current seen-set, and no
    spreadsheet is touched while there is no row. *)
Definition run_invariant (seen0 : gset string) (sh0 : gmap string Sheet)
    (st : Engine) : Prop :=
  replay (None, seen0) (events st) = Some (None, processed_shots st)
  /\ (rows st = [] -> sheets st = sh0).

(** What processing tiles leaves alone or changes together. *)
Definition counters_frame (st st' : Engine) : Prop :=
  processed_count st' - processed_count st
  = new_tiles_processed st' - new_tiles_processed st
  /\ 0 <= new_tiles_processed st' - new_tiles_processed st
  /\ consecutive_no_new st' = consecutive_no_new st
  /\ last_height st' = last_height st
  /\ cycles (events st') = cycles (events st).

(** The number of cycles that certainly ends the loop from a state. *)
Definition potential (max_shots : Z) (st : Engine) : Z :=
  3 * (max_shots - processed_count st)
  + (max_consecutive_no_new - consecutive_no_new st).

Definition flow_state (f : flow) : Engine :=
  match f with
  | Break st | Continue st => st
  end.

(** ** Sample pages *)

Definition sample_modal : ModalDom :=
  {| modal_title := Ret (live ∅ "Heat (1995)");
     modal_swatches :=
       Ret [live {[ "style" := "background-color: rgb(12, 34, 56);" ]} "";
            live {[ "style" := "background-color:#a0b1c2" ]} ""];
     modal_groups := Ret [full_location_group; blank_span_group];
     modal_hero_link :=
       Some (live {[ "href" := "https://cdn.example/stills/AB12CD.JPG" ]} "");
     modal_hero_img := None |}.

(** A tile that opens, parses and downloads without trouble. *)
Definition sample_tile (shot_id : string) : TileObs :=
  {| obs_tile :=
       {| tile_el := live {[ "data-shotid" := shot_id ]} "";
          tile_title := Some (live ∅ "Heat");
          tile_thumb :=
            Some {| thumb_el := live {[ "data-filename" := "heat.jpg" ]} "";
                    thumb_still :=
                      Some (live {[ "src" := "https://cdn.example/t.jpg" ]} "") |} |};
     obs_open := Ret tt;
     obs_modal := sample_modal;
     obs_close := Ret tt;
     obs_fetch := hd_fetch |}.

(** A page that never loads more: the same two tiles and the same scroll
    height in every cycle. *)
Definition static_page : nat -> CycleObs :=
  fun _ =>
    {| cyc_tiles := Ret [sample_tile "AB12CD"; sample_tile "EF34GH"];
       cyc_scroll := Ret tt;
       cyc_height := Ret 4000 |}.

(** A page that reflows: its height changes at every scroll and the same
    two tiles come back in every scan, the second one twice. *)
Definition reflowing_page : nat -> CycleObs :=
  fun n =>
    {| cyc_tiles :=
         Ret [sample_tile "AB12CD"; sample_tile "EF34GH"; sample_tile "EF34GH"];
       cyc_scroll := Ret tt;
       cyc_height := Ret (5000 + Z.of_nat n) |}.

Definition sample_args : Args :=
  {| arg_max_shots := 100; arg_out_xlsx := "shots.xlsx";
     arg_images_dir := "shotdeck_images"; arg_batch_size := 1 |}.

(** A page without tiles. *)
Definition empty_page : nat -> CycleObs :=
  fun _ => {| cyc_tiles := Ret []; cyc_scroll := Ret tt; cyc_height := Ret 4000 |}.

(** ** Normal forms of text *)

(** Every white-space character of [s] is a single space followed by a
    character that is not white space. *)
Fixpoint single_spaced (s : string) : bool :=
  match s with
  | EmptyString => true
  | String c s' =>
      (if is_space c then
         Ascii.eqb c " "
         && match s' with
            | String d _ => negb (is_space d)
            | EmptyString => false
            end
       else true)
      && single_spaced s'
  end.

(** A text without white space at either end and with single spaces
    only. *)
Definition normal_text (s : string) : bool :=
  single_spaced s
  && match s with
     | String c _ => negb (is_space c)
     | EmptyString => true
     end.

Fixpoint string_forall (p : ascii -> bool) (s : string) : bool :=
  match s with
  | EmptyString => true
  | String c s' => p c && string_forall p s'
  end.

(** [str.isupper] on one code point below 256: the characters that
    [lower_char] changes. *)
Definition is_upper (c : ascii) : bool :=
  let n := code c in
  ((65 <=? n) && (n <=? 90)
   || (192 <=? n) && (n <=? 222) && negb (n =? 215))%N.

(** The characters of a normalised field name: no white space, no slash,
    no hyphen, no upper-case letter. *)
Definition field_name_char (c : ascii) : bool :=
  negb (is_space c) && negb (Ascii.eqb c "/") && negb (Ascii.eqb c "-")
  && negb (is_upper c).

(** The seven keys of the dict that [parse_tile_basic] builds. *)
Definition tile_keys : list string :=
  [ "shot_id"; "titleyear"; "shot_status"; "title_content_status";
    "grid_title_raw"; "thumb_src"; "data_filename" ].

(** The same tile with another title element and another thumbnail
    link. *)
Definition with_sub_elements (title : option Element) (thumb : option Thumb)
    (tile : TileDom) : TileDom :=
  {| tile_el := tile_el tile; tile_title := title; tile_thumb := thumb |}.

(** The same detail view with another list of groups. *)
Definition with_groups (groups : result (list DetailGroup)) (m : ModalDom) : ModalDom :=
  {| modal_title := modal_title m; modal_swatches := modal_swatches m;
     modal_groups := groups; modal_hero_link := modal_hero_link m;
     modal_hero_img := modal_hero_img m |}.

(** An element that cannot be read: missing, or detached. *)
Definition unusable (e : option Element) : Prop :=
  match e with
  | Some a => el_stale a = true
  | None => True
  end.

(** A colour value as it stands in a style: not empty, no white space in
    front, no semicolon. *)
Definition plain_color (v : string) : bool :=
  match v with
  | String c _ =>
      negb (is_space c) && string_forall (fun d => negb (Ascii.eqb d ";")) v
  | EmptyString => false
  end.

(** A swatch whose style declares the background colour [v]. *)
Definition swatch_of (v : string) : Element :=
  live {[ "style" := "background-color: " ++ v ++ ";" ]} "".

(** A detail view with two swatches, the second with an empty
    declaration, and no group. *)
Definition bad_swatch_modal : ModalDom :=
  {| modal_title := Raise TimeoutException;
     modal_swatches :=
       Ret [swatch_of "#a0b1c2"; live {[ "style" := "background-color:;" ]} ""];
     modal_groups := Ret [];
     modal_hero_link := None;
     modal_hero_img := None |}.

(** The extension that [save_image] gives the file: the lower-cased
    extension of the URL without its query when it is one of the image
    extensions, and [".jpg"] otherwise. *)
Definition image_extension (url : string) : string :=
  let ext := lower (splitext_ext (before_first "?" url)) in
  let ext := if truthy ext then ext else ".jpg" in
  if in_list ext image_extensions then ext else ".jpg".

(** The path of the file that [save_image] writes. *)
Definition image_path (out_dir shot_id url : string) : string :=
  path_join out_dir (shot_id ++ image_extension url).


(** ** Interaction controller *)

(** What the controller does to the browser. *)
Inductive Action : Type :=
| ActClick
| ActScroll
| ActScriptClick
| ActPointerClick
| ActEscape
| ActWait
| ActRefresh.

(** What the browser answers during one attempt of
    [safe_click_element]: [element.click()], the script that scrolls the
    element into view, the script click and the pointer click. *)
Record ClickAttempt : Type := {
  try_click : result unit;
  try_rescroll : result unit;
  try_script_click : result unit;
  try_pointer_click : result unit
}.

(** The exceptions of the handler
    [except (ElementClickInterceptedException, StaleElementReferenceException)]. *)
Definition retryable (e : py_exn) : bool :=
  match e with
  | ElementClickInterceptedException | StaleElementReferenceException => true
  | _ => false
  end.

(** [for attempt in range(max_attempts)], from the attempt [attempt] with
    [remaining] attempts left; the result comes with the actions done. *)
Fixpoint safe_click_from (attempts : nat -> ClickAttempt) (remaining attempt : nat)
  : list Action * result bool :=
  match remaining with
  | O => ([], Ret false)
  | S remaining' =>
      let a := attempts attempt in
      match try_click a with
      | Ret _ => ([ActClick], Ret true)
      | Raise e =>
          if retryable e then
            match try_rescroll a with
            | Raise e' => ([ActClick; ActScroll], Raise e')
            | Ret _ =>
                match try_script_click a with
                | Ret _ => ([ActClick; ActScroll; ActScriptClick], Ret true)
                | Raise _ =>
                    match try_pointer_click a with
                    | Ret _ =>
                        ([ActClick; ActScroll; ActScriptClick; ActPointerClick],
                         Ret true)
                    | Raise _ =>
                        let rest := safe_click_from attempts remaining' (S attempt) in
                        (([ActClick; ActScroll; ActScriptClick; ActPointerClick]
                            ++ fst rest)%list,
                         snd rest)
                    end
                end
            end
          else ([ActClick], Raise e)
      end
  end.

(** [safe_click_element(driver, element, max_attempts)] *)
Definition safe_click_element (attempts : nat -> ClickAttempt) (max_attempts : Z)
  : list Action * result bool :=
  safe_click_from attempts (Z.to_nat max_attempts) 0.

(** An attempt in which the click is intercepted or stale, the element
    is scrolled back into view, and both fallback clicks fail. *)
Definition attempt_fails (a : ClickAttempt) : Prop :=
  (exists e, try_click a = Raise e /\ retryable e = true)
  /\ try_rescroll a = Ret tt
  /\ raises (try_script_click a)
  /\ raises (try_pointer_click a).

(** What the browser answers to [open_shot_modal]: the first scroll to
    the thumbnail, the attempts of the click, and the wait for
    [#shot-details-body] to be visible. *)
Record OpenObs : Type := {
  open_scroll : result unit;
  open_clicks : nat -> ClickAttempt;
  open_visible : result unit
}.

(** [open_shot_modal(driver, tile)]: the handler prints and raises the
    exception again. *)
Definition open_shot_modal (tile : TileDom) (o : OpenObs)
  : list Action * result unit :=
  match find_element (tile_el tile) (tile_thumb tile) with
  | Raise e => ([], Raise e)
  | Ret _ =>
      match open_scroll o with
      | Raise e => ([ActScroll], Raise e)
      | Ret _ =>
          let clicked := safe_click_element (open_clicks o) 3 in
          let done := ActScroll :: fst clicked in
          match snd clicked with
          | Raise e => (done, Raise e)
          | Ret false => (done, Raise ElementClickInterceptedException)
          | Ret true =>
              match open_visible o with
              | Raise e => ((done ++ [ActWait])%list, Raise e)
              | Ret _ => ((done ++ [ActWait])%list, Ret tt)
              end
          end
      end
  end.

(** What the browser answers to [close_modal]: the close button
    [.modal-header button.close], its click, the wait for the detail view
    to disappear, and the Escape key. *)
Record CloseObs : Type := {
  close_button : option Element;
  close_click : result unit;
  close_hidden : result unit;
  close_escape : result unit
}.

Definition close_modal (c : CloseObs) : list Action * result unit :=
  match find_element live_driver (close_button c) with
  | Raise _ => ([ActEscape], close_escape c)
  | Ret _ =>
      match close_click c with
      | Raise _ => ([ActClick; ActEscape], close_escape c)
      | Ret _ =>
          match close_hidden c with
          | Raise _ => ([ActClick; ActWait; ActEscape], close_escape c)
          | Ret _ => ([ActClick; ActWait], Ret tt)
          end
      end
  end.

(** The [while retries < max_retries] loop of [wait_for_gallery], with
    [remaining = max_retries - retries].  [waits i] is the outcome of the
    wait after [i] timeouts and [refreshes i] the outcome of the refresh
    that follows it. *)
Fixpoint gallery_loop (waits refreshes : nat -> result unit)
    (remaining retries : nat) : list Action * result bool :=
  match remaining with
  | O => ([], Ret false)
  | S remaining' =>
      match waits retries with
      | Ret _ => ([ActWait], Ret true)
      | Raise TimeoutException =>
          match remaining' with
          | O => ([ActWait], Raise TimeoutException)
          | S _ =>
              match refreshes retries with
              | Raise e => ([ActWait; ActRefresh], Raise e)
              | Ret _ =>
                  let rest := gallery_loop waits refreshes remaining' (S retries) in
                  (([ActWait; ActRefresh] ++ fst rest)%list, snd rest)
              end
          end
      | Raise e => ([ActWait], Raise e)
      end
  end.

(** [wait_for_gallery(driver, timeout, max_retries)] *)
Definition wait_for_gallery (waits refreshes : nat -> result unit)
    (max_retries : Z) : list Action * result bool :=
  gallery_loop waits refreshes (Z.to_nat max_retries) 0.

(** [k] rounds of a wait that times out followed by a refresh. *)
Definition retry_rounds (k : nat) : list Action :=
  concat (replicate k [ActWait; ActRefresh]).

(** A click that is always intercepted, with fallbacks that fail. *)
Definition blocked_click : ClickAttempt :=
  {| try_click := Raise ElementClickInterceptedException;
     try_rescroll := Ret tt;
     try_script_click := Raise WebDriverException;
     try_pointer_click := Raise WebDriverException |}.

(** Closing by the button works: the button is there, its click is
    accepted and the detail view disappears. *)
Definition button_works (c : CloseObs) : Prop :=
  (exists b, close_button c = Some b)
  /\ close_click c = Ret tt /\ close_hidden c = Ret tt.

(** How many times an action occurs in a list. *)
Definition occurrences (a : Action) (acts : list Action) : nat :=
  List.length
    (List.filter
       (fun b => match a, b with
                 | ActClick, ActClick | ActScroll, ActScroll
                 | ActScriptClick, ActScriptClick
                 | ActPointerClick, ActPointerClick
                 | ActEscape, ActEscape | ActWait, ActWait
                 | ActRefresh, ActRefresh => true
                 | _, _ => false
                 end) acts).

(** A click that fails with an exception the handler does not retry on. *)
Definition broken_click : ClickAttempt :=
  {| try_click := Raise WebDriverException;
     try_rescroll := Ret tt;
     try_script_click := Ret tt;
     try_pointer_click := Ret tt |}.

(** ** More on the engine *)

(** Two states that differ in their event logs only. *)
Definition same_data (st st' : Engine) : Prop :=
  rows st = rows st' /\ all_fields st = all_fields st'
  /\ last_height st = last_height st'
  /\ processed_count st = processed_count st'
  /\ consecutive_no_new st = consecutive_no_new st'
  /\ new_tiles_processed st = new_tiles_processed st'
  /\ processed_shots st = processed_shots st'
  /\ files st = files st' /\ sheets st = sheets st'.

(** A tile whose processing raises before anything is recorded: reading
    the tile, opening the detail view, extracting it or closing it
    fails. *)
Definition tile_fails (t : TileObs) : Prop :=
  raises (parse_tile_basic (obs_tile t))
  \/ raises (obs_open t)
  \/ raises (parse_modal (obs_modal t))
  \/ raises (obs_close t).

(** A tile whose detail view cannot be opened. *)
Definition unopenable_tile (shot_id : string) : TileObs :=
  {| obs_tile := obs_tile (sample_tile shot_id);
     obs_open := Raise ElementClickInterceptedException;
     obs_modal := sample_modal;
     obs_close := Ret tt;
     obs_fetch := hd_fetch |}.

(** ** More on the spreadsheet writer *)

(** The order of [sorted] on strings: code point by code point. *)
Definition str_le (a b : string) : Prop := String.leb a b = true.

(** A cell as it is written: a single line, with no white space at
    either end. *)
Definition clean (s : string) : Prop :=
  string_forall (fun c => negb (Ascii.eqb c newline)) s = true
  /\ strip s = s.

(** Two rows of a run: the second has a field that the first lacks, and a
    value on three lines. *)
Definition sample_rows : list record :=
  [ {[ "shot_id" := Some "AB12CD"; "thumb_src" := None;
       "director" := Some "Michael Mann" ]};
    {[ "shot_id" := Some "EF34GH";
       "lens" := Some (String newline ("  50mm " ++ String newline " prime ")) ]} ].

(** ** Heights and idle cycles *)




(** * Properties *)

Example normalize_full_filming_location :
  normalize_field_name "Full Filming Location:" = "full_filming_location".
Proof. reflexivity. Qed.

Example normalize_color_tone :
  normalize_field_name "Color / Tone" = "color_tone".
Proof. reflexivity. Qed.

Example gcd_1920_1080 : gcd 1920 1080 = 120.
Proof. reflexivity. Qed.

(** ** The aspect-ratio classifier *)

Lemma gcd_is_Zgcd (a b : Z) : 0 <= a -> 0 <= b -> gcd a b = Z.gcd a b.
Proof.
  funelim (gcd a b); intros Ha Hb.
  - subst. rewrite Z.gcd_0_r. lia.
  - assert (Hb' : 0 < b) by lia.
    match goal with
    | IH : _ -> _ -> gcd _ _ = Z.gcd _ _ |- _ =>
        rewrite IH; [| lia | apply Z.mod_pos_bound; lia]
    end.
    rewrite (Z.gcd_comm b), Z.gcd_mod by lia. apply Z.gcd_comm.
Qed.




Section MinFrom.
Context {A : Type} (key : A -> spec_float).




End MinFrom.



(** C4 (code defect).  On a non-positive width or height
    [calculate_image_metadata] returns three empty strings, the tuple
    [("", "", "")], and not the pair [("", "")] that the positive branch
    and the caller's two-name unpacking use. *)
Theorem calculate_image_metadata_nonpositive (width height : Z) :
  width <= 0 \/ height <= 0 ->
  calculate_image_metadata width height = Ret [""; ""; ""]
  /\ calculate_image_metadata width height <> Ret [""; ""].
Proof.
  intros H. unfold calculate_image_metadata.
  assert (Hb : (width <=? 0) || (height <=? 0) = true).
  { apply orb_true_iff. destruct H; [left|right]; apply Z.leb_le; assumption. }
  rewrite Hb. split; [reflexivity|discriminate].
Qed.

Lemma calculate_image_metadata_nonpositive_witness :
  (calculate_image_metadata 0 100 = Ret [""; ""; ""]
   /\ calculate_image_metadata 0 100 <> Ret [""; ""])
  /\ (calculate_image_metadata 100 0 = Ret [""; ""; ""]
      /\ calculate_image_metadata 100 0 <> Ret [""; ""]).
Proof.
  split.
  - apply (calculate_image_metadata_nonpositive 0 100). left. lia.
  - apply (calculate_image_metadata_nonpositive 100 0). right. lia.
Defined.







(** Beyond the threshold every call on positive dimensions raises. *)
Lemma calculate_image_metadata_overflow (w h : Z) :
  0 < w -> 0 < h -> overflow_threshold * h <= w ->
  calculate_image_metadata w h = Raise OverflowError.
Proof.
  intros Hw Hh Hov. unfold calculate_image_metadata, int_true_div.
  destruct (Z.leb_spec w 0); [lia|]. destruct (Z.leb_spec h 0); [lia|].
  destruct w as [|pw|pw]; try lia. destruct h as [|ph|ph]; try lia.
  rewrite !Z.abs_eq by lia.
  destruct (Z.leb_spec (overflow_threshold * Z.pos ph) (Z.pos pw)); [|lia].
  reflexivity.
Qed.

Example cinema_scope_2048_858 :
  calculate_image_metadata 2048 858 = Ret ["1024:429"; "2.39:1"].
Proof. vm_compute. reflexivity. Qed.

Example cinema_custom_3_2 :
  calculate_image_metadata 3 2 = Ret ["3:2"; "1.50:1"].
Proof. vm_compute. reflexivity. Qed.

Example overflow_boundary :
  int_true_div (overflow_threshold - 1) 1
  = Ret (S754_finite false 9007199254740991 971)
  /\ fdiv (S754_finite false (Z.to_pos overflow_threshold) 0)
       (S754_finite false 1 0) = S754_infinity false.
Proof. split; vm_compute; reflexivity. Qed.

(** ** The tile scanner *)

(** What does hold: on a tile that is still attached the function returns,
    the four tile attributes are strings (empty when absent), and a missing
    sub-element gives the empty string for its field. *)
Lemma parse_tile_basic_live (tile : TileDom) :
  el_stale (tile_el tile) = false ->
  exists d, parse_tile_basic tile = Ret d
    /\ d !! "shot_id" = Some (Some (or_empty (el_attrs (tile_el tile) !! "data-shotid")))
    /\ (tile_title tile = None -> d !! "grid_title_raw" = Some (Some ""))
    /\ (tile_thumb tile = None ->
        d !! "thumb_src" = Some (Some "") /\ d !! "data_filename" = Some (Some "")).
Proof.
  intros Hlive. unfold parse_tile_basic, get_attribute, find_element.
  rewrite Hlive. cbn [bind]. eexists. split; [reflexivity|].
  split; [|split].
  - repeat (rewrite lookup_insert_ne by discriminate).
    apply lookup_insert_eq.
  - intros ->. repeat (rewrite lookup_insert_ne by discriminate).
    rewrite lookup_insert_eq. reflexivity.
  - intros ->. split.
    + rewrite lookup_insert_ne by discriminate.
      rewrite lookup_insert_eq. reflexivity.
    + rewrite lookup_insert_eq. reflexivity.
Qed.

(** C9 (code defect).  The fields [thumb_src] and [data_filename] do not
    fail soft to the empty string when the attribute is missing on an
    element that exists: the value is [None].  And the four attribute
    reads of the tile are outside every [try], so a detached tile makes
    the function raise. *)
Theorem parse_tile_basic_missing_attribute :
  (exists d, parse_tile_basic tile_without_src = Ret d
     /\ d !! "shot_id" = Some (Some "AB12CD")
     /\ d !! "grid_title_raw" = Some (Some "Heat (1995)")
     /\ d !! "thumb_src" = Some None
     /\ d !! "data_filename" = Some None)
  /\ parse_tile_basic tile_detached = Raise StaleElementReferenceException.
Proof.
  split; [|reflexivity].
  eexists. split; [reflexivity|]. repeat split; vm_compute; reflexivity.
Qed.

(** ** The detail-panel extractor *)

Lemma map_result_live (l : list Element) :
  all_live l ->
  map_result get_text_of l = Ret (map (fun a => get_text (el_text a)) l).
Proof.
  induction 1 as [|e l He _ IH]; [reflexivity|].
  cbn [map_result map]. unfold get_text_of at 1. rewrite He, IH. reflexivity.
Qed.

(** C8 (as amended).  For a group whose elements are all attached, the
    value recorded under the normalised label is: the text of the first
    full-location span if there is one and its normalised text is not
    empty; else the link texts joined with [", "] if there are links; else
    the flattened text of the block. *)
Theorem group_value_precedence (g : DetailGroup) (type_el : Element)
    (d : DetailsDiv) (data : record) :
  el_stale (grp_el g) = false ->
  grp_type g = Some type_el -> el_stale type_el = false ->
  grp_details g = Some d -> el_stale (div_el d) = false ->
  all_live (div_spans d) -> all_live (div_anchors d) ->
  parse_group g
  = Ret (normalize_field_name (el_text type_el), guarded_group_value d)
  /\ record_group data g !! normalize_field_name (el_text type_el)
     = Some (Some (guarded_group_value d)).
Proof.
  intros Hg Ht Htl Hd Hdl Hspans Hanchors.
  assert (Hp : parse_group g
    = Ret (normalize_field_name (el_text type_el), guarded_group_value d)).
  { unfold parse_group, find_element, guarded_group_value.
    rewrite Hg, Ht, Hd. cbn [bind]. rewrite Htl, Hdl. cbn [bind].
    assert (Hfb :
      match div_anchors d with
      | a :: anchors =>
          let* texts := map_result get_text_of (a :: anchors) in
          Ret (join ", " texts)
      | [] => get_text_of (div_el d)
      end
      = Ret match div_anchors d with
            | _ :: _ =>
                join ", " (map (fun a => get_text (el_text a)) (div_anchors d))
            | [] => get_text (el_text (div_el d))
            end).
    { destruct (div_anchors d) as [|a anchors] eqn:Ha.
      - unfold get_text_of. rewrite Hdl. reflexivity.
      - rewrite map_result_live by exact Hanchors. reflexivity. }
    destruct (div_spans d) as [|span spans].
    - cbn [bind truthy_opt]. rewrite Hfb. reflexivity.
    - inversion Hspans as [|? ? Hs _]; subst.
      unfold get_text_of at 1. rewrite Hs. cbn [bind truthy_opt].
      destruct (get_text (el_text span)) as [|c s] eqn:Htxt; cbn [truthy].
      + rewrite Hfb. reflexivity.
      + reflexivity. }
  split; [exact Hp|].
  unfold record_group. rewrite Hp. apply lookup_insert_eq.
Qed.

Lemma group_value_precedence_witness :
  parse_group full_location_group
  = Ret ("filming_location", "Chicago, Illinois, USA")
  /\ record_group ∅ full_location_group !! "filming_location"
     = Some (Some "Chicago, Illinois, USA").
Proof.
  apply (group_value_precedence full_location_group
           (live ∅ "Filming Location:")
           {| div_el := live ∅ "Chicago Illinois Chicago, Illinois, USA";
              div_spans := [live ∅ " Chicago,  Illinois, USA "];
              div_anchors := [live ∅ "Chicago"; live ∅ "Illinois"] |} ∅);
    try reflexivity; repeat constructor.
Defined.

(** C8 as stated fails: a group has a full-location span and links, the
    span is rendered blank, and the value recorded is the joined link
    texts, not the value of the span. *)
Lemma blank_span_counterexample :
  div_spans blank_span_details <> []
  /\ div_anchors blank_span_details <> []
  /\ stated_group_value blank_span_details = ""
  /\ parse_group blank_span_group = Ret ("location", "Paris, France")
  /\ record_group ∅ blank_span_group !! "location"
     <> Some (Some (stated_group_value blank_span_details)).
Proof.
  split; [discriminate|]. split; [discriminate|]. split; [reflexivity|].
  split; [reflexivity|]. vm_compute. discriminate.
Qed.

(** ** The image fetcher *)

Lemma path_join_nonempty (out_dir name : string) : path_join out_dir name <> "".
Proof. unfold path_join. destruct out_dir; discriminate. Qed.

(** C7 (as amended).  [save_image] returns the all-empty five-tuple for
    an empty (or absent) URL and when the download or the writing of the
    file fails; when the file is saved and measuring the image fails
    (Pillow absent, or the image cannot be decoded) it returns the saved
    path with four empty strings.  Once the output directory is there, no
    call raises. *)
Theorem save_image_fails_soft (f : Fetch) (url : option string)
    (out_dir shot_id : string) (files : gmap string string) :
  (truthy_opt url = false ->
   save_image f url out_dir shot_id files = (files, Ret no_image))
  /\ (fetch_mkdir f = Ret tt -> truthy_opt url = true ->
      raises (fetch_response f) \/ raises (fetch_write f) ->
      save_image f url out_dir shot_id files = (files, Ret no_image))
  /\ (fetch_mkdir f = Ret tt -> truthy_opt url = true ->
      forall content, fetch_response f = Ret content ->
      fetch_write f = Ret tt ->
      raises (fetch_pillow f) \/ raises (fetch_decoded f) ->
      exists out_path,
        out_path <> ""
        /\ save_image f url out_dir shot_id files
           = (<[out_path := content]> files, Ret (out_path, "", "", "", "")))
  /\ (fetch_mkdir f = Ret tt ->
      exists files' info,
        save_image f url out_dir shot_id files = (files', Ret info)).
Proof.
  unfold save_image. split; [|split; [|split]].
  - intros ->. reflexivity.
  - intros -> -> [[e He]|[e He]]; cbn [negb].
    + rewrite He. reflexivity.
    + rewrite He. destruct (fetch_response f); reflexivity.
  - intros -> -> content Hr Hw Hdec. cbn [negb]. rewrite Hr, Hw. cbn [bind].
    eexists. split; [apply path_join_nonempty|].
    f_equal. f_equal. unfold measure_image.
    destruct Hdec as [[e He]|[e He]].
    + rewrite He. reflexivity.
    + rewrite He. destruct (fetch_pillow f) as [[]|]; reflexivity.
  - intros ->. destruct (truthy_opt url); cbn [negb]; [|eauto].
    destruct (fetch_response f) as [content|]; cbn [bind]; [|eauto].
    destruct (fetch_write f) as [[]|]; cbn [bind]; eauto.
Qed.

Lemma save_image_fails_soft_witness :
  save_image undecodable_fetch None "shotdeck_images" "AB12CD" ∅
  = (∅, Ret no_image)
  /\ (exists files' info,
        save_image undecodable_fetch (Some "https://cdn.example/AB12CD.png?x=1")
          "shotdeck_images" "AB12CD" ∅ = (files', Ret info)).
Proof.
  split.
  - exact (proj1 (save_image_fails_soft undecodable_fetch None
                    "shotdeck_images" "AB12CD" ∅) eq_refl).
  - exact (proj2 (proj2 (proj2 (save_image_fails_soft undecodable_fetch
                    (Some "https://cdn.example/AB12CD.png?x=1")
                    "shotdeck_images" "AB12CD" ∅))) eq_refl).
Defined.

(** C7 as stated fails: the download succeeds, the image cannot be
    decoded, and the result carries the path of the saved file. *)
Lemma undecodable_image_counterexample :
  raises (fetch_decoded undecodable_fetch)
  /\ save_image undecodable_fetch (Some "https://cdn.example/AB12CD.png?x=1")
       "shotdeck_images" "AB12CD" ∅
     = ({[ "shotdeck_images/AB12CD.png" := "<html>not an image</html>" ]},
        Ret ("shotdeck_images/AB12CD.png", "", "", "", ""))
  /\ Ret ("shotdeck_images/AB12CD.png", "", "", "", "") <> Ret no_image.
Proof.
  split; [exists OSError; reflexivity|]. split; [reflexivity|discriminate].
Qed.

Example save_image_hd :
  snd (save_image hd_fetch (Some "https://cdn.example/stills/AB12CD.JPG")
         "shotdeck_images" "AB12CD" ∅)
  = Ret ("shotdeck_images/AB12CD.jpg", "1920", "1080", "16:9", "16:9").
Proof. vm_compute. reflexivity. Qed.

(** ** Event logs and the seen-set *)

Lemma replay_app (evs1 evs2 : list Event) (s : log_state) :
  replay s (evs1 ++ evs2) = s' ← replay s evs1; replay s' evs2.
Proof.
  revert s. induction evs1 as [|ev evs1 IH]; intros s; [reflexivity|].
  cbn [replay app]. destruct (replay_event s ev) as [s'|]; [apply IH|reflexivity].
Qed.

Lemma replay_event_grows (s s' : log_state) (ev : Event) :
  replay_event s ev = Some s' -> snd s ⊆ snd s'.
Proof.
  unfold replay_event. intros H.
  destruct (fst s), ev; try case_bool_decide; try discriminate;
    injection H as <-; cbn; set_solver.
Qed.

Lemma replay_grows (evs : list Event) (s s' : log_state) :
  replay s evs = Some s' -> snd s ⊆ snd s'.
Proof.
  revert s. induction evs as [|ev evs IH]; intros s H; cbn [replay] in H.
  - injection H as <-. reflexivity.
  - destruct (replay_event s ev) as [s1|] eqn:Hev; [|discriminate].
    apply replay_event_grows in Hev. apply IH in H. set_solver.
Qed.

(** Once a shot is in the set, no later event is about it. *)
Lemma replay_untouched (evs : list Event) (s s' : log_state) (id : string) :
  replay s evs = Some s' -> id ∈ snd s -> fst s <> Some id -> untouched id evs.
Proof.
  revert s. induction evs as [|ev evs IH]; intros s H Hin Hp; [constructor|].
  cbn [replay] in H.
  destruct (replay_event s ev) as [s1|] eqn:Hev; [|discriminate].
  cbn in H. specialize (IH s1 H). unfold replay_event in Hev.
  destruct (fst s) as [id0|] eqn:Hfst, ev as [|id1|id1|id1|id1];
    try case_bool_decide; try discriminate; injection Hev as <-;
    (constructor; [cbn; congruence|apply IH; cbn; [set_solver|congruence]]).
Qed.

Lemma replay_after_mark (before after : list Event) (s s' : log_state) (id : string) :
  replay s (before ++ EvSeen id :: after) = Some s' -> untouched id after.
Proof.
  rewrite replay_app. intros H.
  destruct (replay s before) as [s1|]; [|discriminate].
  cbn in H. destruct (replay_event s1 (EvSeen id)) as [s2|] eqn:Hev; [|discriminate].
  cbn in H. unfold replay_event in Hev.
  destruct (fst s1) as [id0|]; [|discriminate].
  case_bool_decide; [|discriminate]. subst id0. injection Hev as <-.
  eapply replay_untouched; [exact H|cbn; set_solver|discriminate].
Qed.

Lemma replay_marks (evs : list Event) (s s' : log_state) (id : string) :
  replay s evs = Some s' -> In (EvSeen id) evs -> id ∈ snd s'.
Proof.
  intros H Hin. apply in_split in Hin as (before & after & ->).
  rewrite replay_app in H.
  destruct (replay s before) as [s1|]; [|discriminate].
  cbn in H. destruct (replay_event s1 (EvSeen id)) as [s2|] eqn:Hev; [|discriminate].
  cbn in H. apply replay_grows in H. unfold replay_event in Hev.
  destruct (fst s1) as [id0|]; [|discriminate].
  case_bool_decide; [|discriminate]. subst id0. injection Hev as <-.
  cbn in H. set_solver.
Qed.

(** No shot is recorded twice, and none that was in the set at the
    start. *)
Lemma replay_recorded (evs : list Event) (s s' : log_state) :
  replay s evs = Some s' ->
  NoDup (recorded evs)
  /\ forall id, id ∈ recorded evs -> (id ∉ snd s) /\ fst s <> Some id.
Proof.
  revert s. induction evs as [|ev evs IH]; intros s H.
  - split; [constructor|]. intros id Hin. inversion Hin.
  - cbn [replay] in H.
    destruct (replay_event s ev) as [s1|] eqn:Hev; [|discriminate].
    cbn in H. destruct (IH s1 H) as [Hnd Hfresh]. unfold replay_event in Hev.
    destruct (fst s) as [id0|] eqn:Hfst, ev as [|id1|id1|id1|id1];
      try case_bool_decide; try discriminate; injection Hev as <-;
      unfold recorded; cbn [omap list_omap]; fold (recorded evs).
    + split; [exact Hnd|]. intros id Hin.
      destruct (Hfresh id Hin) as [Hn _]. cbn in Hn. subst id1.
      split.
      * intros Hc. apply Hn, elem_of_union. left. exact Hc.
      * intros [= ->]. apply Hn, elem_of_union. right.
        apply elem_of_singleton. reflexivity.
    + split; [exact Hnd|]. intros id Hin. destruct (Hfresh id Hin). auto.
    + split; [exact Hnd|]. intros id Hin. destruct (Hfresh id Hin). auto.
    + split; [exact Hnd|]. intros id Hin. destruct (Hfresh id Hin). auto.
    + split.
      * apply NoDup_cons. split; [|exact Hnd].
        intros Hin. destruct (Hfresh id1 Hin) as [_ Hp]. cbn in Hp. congruence.
      * intros id [->|Hin]%elem_of_cons; [auto|].
        destruct (Hfresh id Hin) as [Hn _]. cbn in Hn. auto.
Qed.

(** ** The incremental scrape engine *)

Lemma cycles_app (evs1 evs2 : list Event) :
  cycles (evs1 ++ evs2) = cycles evs1 + cycles evs2.
Proof.
  unfold cycles. rewrite List.filter_app, List.length_app. lia.
Qed.

Lemma counters_frame_refl (st : Engine) : counters_frame st st.
Proof. unfold counters_frame. repeat split; lia. Qed.

Lemma counters_frame_trans (st1 st2 st3 : Engine) :
  counters_frame st1 st2 -> counters_frame st2 st3 -> counters_frame st1 st3.
Proof. unfold counters_frame. intros (?&?&?&?&?) (?&?&?&?&?). repeat split; lia. Qed.

Lemma tile_step_counters (st st' : Engine) :
  tile_step st st' -> counters_frame st st'.
Proof.
  destruct 1 as [st id _|st id _|st fs|st id row _|st fields path];
    unfold counters_frame; cbn; rewrite ?cycles_app;
    try change (cycles [EvOpen id]) with 0;
    try change (cycles [EvExtract id]) with 0;
    try change (cycles [EvRecord id; EvSeen id]) with 0;
    repeat split; lia.
Qed.

Lemma tile_steps_counters (st st' : Engine) :
  rtc tile_step st st' -> counters_frame st st'.
Proof.
  induction 1 as [|st1 st2 st3 H _ IH]; [apply counters_frame_refl|].
  eapply counters_frame_trans; [apply tile_step_counters; exact H|exact IH].
Qed.

Lemma tile_steps_engine_steps (st st' : Engine) :
  rtc tile_step st st' -> rtc engine_step st st'.
Proof.
  induction 1 as [|st1 st2 st3 H _ IH]; [constructor|].
  eapply rtc_l; [apply es_tile; exact H|exact IH].
Qed.

Section EngineFacts.
Variable globals : gmap string string.
Variable script : nat -> CycleObs.
Variable max_shots : Z.
Variable img_dir : string.
Variable batch_size : Z.

Lemma checkpoint_steps (st : Engine) :
  rtc tile_step st (try_except (checkpoint globals batch_size st) st).
Proof.
  unfold checkpoint, try_except. repeat case_match; simplify_eq;
    try constructor.
  apply rtc_once. apply ts_checkpoint.
Qed.

Lemma process_tile_steps (st : Engine) (t : TileObs) :
  rtc tile_step st (process_tile globals img_dir batch_size st t).
Proof.
  unfold process_tile.
  destruct (parse_tile_basic (obs_tile t)) as [basic_info|]; [|constructor].
  case_match; [constructor|].
  match goal with H : _ || _ = false |- _ =>
    apply orb_false_iff in H as [_ Hnew]; apply bool_decide_eq_false in Hnew end.
  set (id := or_empty _) in *.
  eapply rtc_l; [apply ts_open; exact Hnew|].
  destruct (obs_open t); [|constructor].
  eapply rtc_l; [apply ts_extract; exact Hnew|].
  destruct (parse_modal (obs_modal t)) as [details|]; [|constructor].
  destruct (obs_close t); [|constructor].
  eapply rtc_l; [apply ts_files|].
  destruct (snd (save_image _ _ _ _ _)) as [info|]; [|constructor].
  eapply rtc_l; [apply ts_mark; exact Hnew|].
  apply checkpoint_steps.
Qed.

Lemma process_tiles_steps (tiles : list TileObs) (st : Engine) :
  rtc tile_step st (process_tiles globals max_shots img_dir batch_size st tiles).
Proof.
  revert st. induction tiles as [|t tiles IH]; intros st; cbn [process_tiles].
  - constructor.
  - case_match; [constructor|].
    etrans; [apply process_tile_steps|apply IH].
Qed.

End EngineFacts.

Lemma engine_step_invariant (seen0 : gset string) (sh0 : gmap string Sheet)
    (st st' : Engine) :
  engine_step st st' -> run_invariant seen0 sh0 st -> run_invariant seen0 sh0 st'.
Proof.
  unfold run_invariant.
  intros Hstep [Hlog Hsheets].
  destruct Hstep as [st st' Htile|st|st|st n|st h]; cbn; auto.
  - destruct Htile as [st id Hid|st id Hid|st fs|st id row Hid|st fields path];
      cbn; rewrite ?replay_app, ?Hlog; cbn; auto.
    + unfold replay_event; cbn. rewrite bool_decide_eq_false_2 by exact Hid. auto.
    + unfold replay_event; cbn. rewrite bool_decide_eq_false_2 by exact Hid. auto.
    + unfold replay_event; cbn. rewrite bool_decide_eq_false_2 by exact Hid.
      cbn. rewrite bool_decide_eq_true_2 by reflexivity.
      split; [reflexivity|]. intros Hnil. destruct (rows st); discriminate.
    + split; [reflexivity|]. intros Hnil. rewrite Hnil. cbn. auto.
  - rewrite replay_app, Hlog. cbn. auto.
Qed.

Lemma engine_steps_invariant (seen0 : gset string) (sh0 : gmap string Sheet)
    (st st' : Engine) :
  rtc engine_step st st' -> run_invariant seen0 sh0 st -> run_invariant seen0 sh0 st'.
Proof.
  induction 1 as [|st1 st2 st3 H _ IH]; [auto|].
  intros Hinv. apply IH. eapply engine_step_invariant; eassumption.
Qed.

Section EngineRun.
Variable globals : gmap string string.
Variable script : nat -> CycleObs.
Variable max_shots : Z.
Variable img_dir : string.
Variable batch_size : Z.

Abbreviation cycle := (scrape_cycle globals script max_shots img_dir batch_size).
Abbreviation loop := (scrape_loop globals script max_shots img_dir batch_size).
Abbreviation tiles_loop := (process_tiles globals max_shots img_dir batch_size).

Lemma scrape_cycle_steps (n : nat) (st : Engine) :
  rtc engine_step st (flow_state (cycle n st)).
Proof.
  unfold scrape_cycle.
  eapply rtc_l; [apply es_cycle|].
  destruct (cyc_tiles (script n)) as [tiles|]; [|constructor].
  set (st1 := tiles_loop _ tiles).
  assert (H1 : rtc engine_step (log EvCycle st) st1).
  { eapply rtc_l; [apply es_begin|].
    apply tile_steps_engine_steps, process_tiles_steps. }
  etrans; [exact H1|].
  set (st2 := if new_tiles_processed st1 =? 0 then _ else _).
  assert (H2 : rtc engine_step st1 st2).
  { subst st2. destruct (_ =? 0); apply rtc_once, es_no_new. }
  etrans; [exact H2|].
  repeat case_match; cbn [flow_state]; try constructor.
  apply rtc_once, es_height.
Qed.

Lemma scrape_loop_steps (fuel n : nat) (st st' : Engine) :
  loop fuel n st = Some st' -> rtc engine_step st st'.
Proof.
  revert n st. induction fuel as [|fuel IH]; intros n st; cbn [scrape_loop].
  - case_match; [|discriminate]. intros [= <-]. constructor.
  - case_match; [intros [= <-]; constructor|].
    pose proof (scrape_cycle_steps n st) as Hc.
    destruct (cycle n st) as [st1|st1]; cbn [flow_state] in Hc.
    + intros [= <-]. exact Hc.
    + intros Hl. etrans; [exact Hc|]. eapply IH. exact Hl.
Qed.

(** The counters after the tiles of a cycle. *)
Lemma cycle_tiles_counters (tiles : list TileObs) (st : Engine) :
  let st1 := tiles_loop (begin_cycle (log EvCycle st)) tiles in
  processed_count st1 = processed_count st + new_tiles_processed st1
  /\ 0 <= new_tiles_processed st1
  /\ consecutive_no_new st1 = consecutive_no_new st
  /\ last_height st1 = last_height st
  /\ cycles (events st1) = cycles (events st) + 1.
Proof.
  intros st1.
  pose proof (tile_steps_counters _ _
    (process_tiles_steps globals max_shots img_dir batch_size tiles
       (begin_cycle (log EvCycle st)))) as (Hpc & Hnew & Hcnn & Hlh & Hcyc).
  fold st1 in Hpc, Hnew, Hcnn, Hlh, Hcyc. cbn in Hpc, Hnew, Hcnn, Hlh, Hcyc.
  rewrite cycles_app in Hcyc. change (cycles [EvCycle]) with 1 in Hcyc.
  repeat split; lia.
Qed.

Lemma scrape_cycle_cycles (n : nat) (st : Engine) :
  cycles (events (flow_state (cycle n st))) = cycles (events st) + 1.
Proof.
  unfold scrape_cycle.
  destruct (cyc_tiles (script n)) as [tiles|]; cbn [flow_state].
  - pose proof (cycle_tiles_counters tiles st) as (_ & _ & _ & _ & Hcyc).
    cbn zeta in Hcyc. repeat case_match; cbn; exact Hcyc.
  - cbn. rewrite cycles_app. reflexivity.
Qed.

(** A cycle continues only on a scroll height different from the last
    one, and it brings the loop closer to its end. *)
Lemma scrape_cycle_continue (n : nat) (st st' : Engine) :
  cycle n st = Continue st' ->
  (exists h, cyc_height (script n) = Ret h /\ h <> last_height st)
  /\ processed_count st' < max_shots
  /\ consecutive_no_new st' < max_consecutive_no_new
  /\ (consecutive_no_new st < max_consecutive_no_new ->
      potential max_shots st' < potential max_shots st).
Proof.
  unfold scrape_cycle, potential.
  destruct (cyc_tiles (script n)) as [tiles|]; [|discriminate].
  pose proof (cycle_tiles_counters tiles st) as (Hpc & Hnew & Hcnn & Hlh & _).
  cbn zeta in Hpc, Hnew, Hcnn, Hlh.
  set (st1 := tiles_loop _ tiles) in *.
  destruct (Z.eqb_spec (new_tiles_processed st1) 0) as [Hz|Hnz];
    (destruct (_ || _) eqn:Hstop; [discriminate|]);
    apply orb_false_iff in Hstop as [H3%Z.leb_gt Hm%Z.leb_gt];
    (destruct (cyc_scroll (script n)); [|discriminate]);
    (destruct (cyc_height (script n)) as [h|]; [|discriminate]);
    cbn [last_height with_no_new];
    (destruct (Z.eqb_spec h (last_height st1)) as [|Hne]; [discriminate|]);
    intros [= <-]; cbn in *;
    (split; [exists h; split; [reflexivity|congruence]|]);
    repeat split; unfold max_consecutive_no_new in *; lia.
Qed.

Lemma scrape_loop_terminates (fuel n : nat) (st : Engine) :
  consecutive_no_new st < max_consecutive_no_new ->
  (processed_count st < max_shots -> potential max_shots st <= Z.of_nat fuel) ->
  exists st', loop fuel n st = Some st'.
Proof.
  revert n st. induction fuel as [|fuel IH]; intros n st Hcnn Hfuel;
    cbn [scrape_loop]; destruct (Z.leb_spec max_shots (processed_count st));
    eauto.
  - specialize (Hfuel ltac:(lia)). unfold potential in Hfuel. lia.
  - destruct (cycle n st) as [st1|st1] eqn:Hc; [eauto|].
    apply scrape_cycle_continue in Hc as (_ & Hpc & Hcnn1 & Hpot).
    apply IH; [exact Hcnn1|]. intros _. specialize (Hpot Hcnn). lia.
Qed.

Lemma incremental_scrape_returns (initial_height : Z) (seen : gset string)
    (fs : gmap string string) (sh : gmap string Sheet) :
  exists st,
    incremental_scrape globals script max_shots img_dir batch_size
      initial_height seen fs sh = Some st
    /\ run_invariant seen sh st.
Proof.
  unfold incremental_scrape.
  destruct (scrape_loop_terminates (enough_cycles max_shots) 0
              (start initial_height seen fs sh)) as [st Hst].
  - reflexivity.
  - unfold potential, enough_cycles. cbn. intros Hpos.
    unfold max_consecutive_no_new. lia.
  - exists st. split; [exact Hst|].
    eapply engine_steps_invariant; [eapply scrape_loop_steps; exact Hst|].
    split; reflexivity.
Qed.

End EngineRun.

(** ** Deduplication *)

Lemma engine_step_seen_grows (st st' : Engine) :
  engine_step st st' -> processed_shots st ⊆ processed_shots st'.
Proof.
  destruct 1 as [st st' Htile|st|st|st n|st h]; cbn; try reflexivity.
  destruct Htile; cbn; set_solver.
Qed.

(** C1.  In every run, from any seen-set: the run returns; the seen-set
    only grows, both over the whole run and at every tile; every shot
    marked during the run is in the final set; a shot that was in the set
    at the start is never opened, extracted or recorded; after a shot is
    marked no later event opens, extracts, records or marks it, whatever
    tiles the later scans show; and no shot is recorded twice. *)
Theorem seen_set_deduplicates (globals : gmap string string)
    (script : nat -> CycleObs) (max_shots : Z) (img_dir : string)
    (batch_size initial_height : Z) (seen : gset string)
    (fs : gmap string string) (sh : gmap string Sheet) :
  exists st,
    incremental_scrape globals script max_shots img_dir batch_size
      initial_height seen fs sh = Some st
    /\ seen ⊆ processed_shots st
    /\ (forall st0 t,
          processed_shots st0
          ⊆ processed_shots (process_tile globals img_dir batch_size st0 t))
    /\ (forall id, In (EvSeen id) (events st) -> id ∈ processed_shots st)
    /\ (forall id, id ∈ seen -> untouched id (events st))
    /\ (forall before after id,
          events st = (before ++ EvSeen id :: after)%list -> untouched id after)
    /\ NoDup (recorded (events st)).
Proof.
  destruct (incremental_scrape_returns globals script max_shots img_dir
              batch_size initial_height seen fs sh) as (st & Hrun & Hlog & _).
  exists st. split; [exact Hrun|].
  split; [apply replay_grows in Hlog; exact Hlog|].
  split.
  { intros st0 t.
    pose proof (tile_steps_engine_steps _ _
                  (process_tile_steps globals img_dir batch_size st0 t)) as Hs.
    induction Hs as [|st1 st2 st3 H _ IH]; [reflexivity|].
    apply engine_step_seen_grows in H. set_solver. }
  split; [intros id Hin; apply (replay_marks _ _ _ _ Hlog Hin)|].
  split.
  { intros id Hin. eapply replay_untouched; [exact Hlog|exact Hin|discriminate]. }
  split.
  { intros before after id Heq. rewrite Heq in Hlog.
    eapply replay_after_mark. exact Hlog. }
  apply (replay_recorded _ _ _ Hlog).
Qed.

Example reflow_is_deduplicated :
  option_map (fun st => (events st, processed_count st))
    (incremental_scrape module_globals reflowing_page 10 "img" 20 4000 ∅ ∅ ∅)
  = Some ([EvCycle;
           EvOpen "AB12CD"; EvExtract "AB12CD"; EvRecord "AB12CD"; EvSeen "AB12CD";
           EvOpen "EF34GH"; EvExtract "EF34GH"; EvRecord "EF34GH"; EvSeen "EF34GH";
           EvCycle; EvCycle; EvCycle], 2).
Proof. vm_compute. reflexivity. Qed.

(** ** Termination *)

Section Termination.
Variable globals : gmap string string.
Variable script : nat -> CycleObs.
Variable max_shots : Z.
Variable img_dir : string.
Variable batch_size : Z.







End Termination.




(** ** Checkpoints *)

Section Checkpoints.
Variable globals : gmap string string.
Variable script : nat -> CycleObs.
Variable max_shots : Z.
Variable img_dir : string.
Variable batch_size : Z.

(** With [base_output_dir] unbound the checkpoint raises, whatever the
    counter is, and the handler of the tile swallows the exception. *)
Lemma checkpoint_unbound (st : Engine) :
  globals !! "base_output_dir" = None ->
  try_except (checkpoint globals batch_size st) st = st
  /\ (batch_size <> 0 -> processed_count st mod batch_size = 0 ->
      checkpoint globals batch_size st = Raise NameError).
Proof.
  intros Hunbound. unfold checkpoint. rewrite Hunbound. split.
  - repeat case_match; reflexivity.
  - intros Hbs Hmod. destruct (Z.eqb_spec batch_size 0); [contradiction|].
    rewrite Hmod. reflexivity.
Qed.

(** Had the name been bound, the checkpoint would write every row. *)
Lemma checkpoint_bound (st : Engine) (dir : string) :
  globals !! "base_output_dir" = Some dir ->
  batch_size <> 0 -> processed_count st mod batch_size = 0 -> rows st <> [] ->
  exists st' sheet,
    checkpoint globals batch_size st = Ret st'
    /\ sheets st' !! path_join dir "shotdeck_progress_temp.xlsx" = Some sheet
    /\ List.length (sheet_body sheet) = List.length (rows st).
Proof.
  intros Hbound Hbs Hmod Hrows. unfold checkpoint. rewrite Hbound.
  destruct (Z.eqb_spec batch_size 0); [contradiction|]. rewrite Hmod.
  cbn [Z.eqb]. unfold save_progress.
  destruct (rows st) as [|row rest] eqn:Hr; [contradiction|].
  eexists _, _. split; [reflexivity|]. cbn [sheets with_sheets].
  rewrite lookup_insert_eq. split; [reflexivity|].
  cbn [sheet_body]. apply List.length_map.
Qed.

Hypothesis unbound : globals !! "base_output_dir" = None.

Lemma process_tile_keeps_sheets (st : Engine) (t : TileObs) :
  sheets (process_tile globals img_dir batch_size st t) = sheets st.
Proof.
  unfold process_tile.
  repeat (case_match; try reflexivity).
  match goal with |- context [try_except (checkpoint _ _ ?s) _] =>
    rewrite (proj1 (checkpoint_unbound s unbound)) end.
  reflexivity.
Qed.

Lemma process_tiles_keep_sheets (tiles : list TileObs) (st : Engine) :
  sheets (process_tiles globals max_shots img_dir batch_size st tiles) = sheets st.
Proof.
  revert st. induction tiles as [|t tiles IH]; intros st; cbn [process_tiles].
  - reflexivity.
  - case_match; [reflexivity|]. rewrite IH. apply process_tile_keeps_sheets.
Qed.

Lemma scrape_cycle_keeps_sheets (n : nat) (st : Engine) :
  sheets (flow_state (scrape_cycle globals script max_shots img_dir batch_size n st))
  = sheets st.
Proof.
  unfold scrape_cycle.
  destruct (cyc_tiles (script n)) as [tiles|]; [|reflexivity].
  repeat case_match; cbn; rewrite process_tiles_keep_sheets; reflexivity.
Qed.

Lemma scrape_loop_keeps_sheets (fuel n : nat) (st st' : Engine) :
  scrape_loop globals script max_shots img_dir batch_size fuel n st = Some st' ->
  sheets st' = sheets st.
Proof.
  revert n st. induction fuel as [|fuel IH]; intros n st; cbn [scrape_loop].
  - case_match; [|discriminate]. intros [= <-]. reflexivity.
  - case_match; [intros [= <-]; reflexivity|].
    pose proof (scrape_cycle_keeps_sheets n st) as Hc.
    destruct (scrape_cycle _ _ _ _ _ n st) as [st1|st1]; cbn [flow_state] in Hc.
    + intros [= <-]. exact Hc.
    + intros Hl. apply IH in Hl. congruence.
Qed.

End Checkpoints.

(** C2 (code defect).  In [incremental_scrape] the checkpoint reads the
    name [base_output_dir], which only [main] binds, as a local: the read
    raises [NameError], the handler of the tile swallows it, and no
    spreadsheet is written during the loop, whatever the batch size.  On
    the static sample page with batch size 1 two shots are processed and
    no progress file exists afterwards. *)
Theorem progress_file_never_written (script : nat -> CycleObs)
    (max_shots : Z) (img_dir : string) (batch_size initial_height : Z)
    (seen : gset string) (fs : gmap string string) (sh : gmap string Sheet) :
  (exists st,
      incremental_scrape module_globals script max_shots img_dir batch_size
        initial_height seen fs sh = Some st
      /\ sheets st = sh)
  /\ (exists st,
        incremental_scrape module_globals static_page 2 "shotdeck_images" 1
          4000 ∅ ∅ ∅ = Some st
        /\ processed_count st = 2
        /\ List.length (rows st) = 2%nat
        /\ sheets st = ∅).
Proof.
  split.
  - destruct (incremental_scrape_returns module_globals script max_shots
                img_dir batch_size initial_height seen fs sh) as (st & Hrun & _).
    exists st. split; [exact Hrun|].
    apply scrape_loop_keeps_sheets in Hrun; [exact Hrun|reflexivity].
  - eexists. split; [vm_compute; reflexivity|].
    repeat split; vm_compute; reflexivity.
Qed.

(** ** Main and the final save *)

Lemma main_final_save (args : Args) (base_output_dir : string)
    (bootstrap : result unit) (initial_height : result Z)
    (script : nat -> CycleObs)
    (fs : gmap string string) (sh : gmap string Sheet) :
  exists out,
    main args base_output_dir bootstrap initial_height script fs sh = Some out
    /\ (out_rows out = [] -> out_sheets out = sh)
    /\ (out_rows out <> [] ->
        exists sheet,
          out_sheets out !! path_join base_output_dir (arg_out_xlsx args)
          = Some sheet
          /\ List.length (sheet_body sheet) = List.length (out_rows out)).
Proof.
  unfold main.
  destruct bootstrap as [[]|e];
    [|eexists; split; [reflexivity|]; cbn; split; [reflexivity|congruence]].
  destruct initial_height as [height|e];
    [|eexists; split; [reflexivity|]; cbn; split; [reflexivity|congruence]].
  destruct (incremental_scrape_returns module_globals script
              (arg_max_shots args)
              (path_join base_output_dir (arg_images_dir args))
              (arg_batch_size args) height ∅ fs sh) as (st & Hrun & _ & Hsheets).
  rewrite Hrun. cbn. eexists. split; [reflexivity|]. cbn. split.
  - intros Hnil. rewrite Hnil. cbn. apply Hsheets. exact Hnil.
  - intros Hrows. unfold save_progress.
    destruct (rows st) as [|row rest]; [contradiction|].
    rewrite lookup_insert_eq. eexists. split; [reflexivity|].
    cbn [sheet_body]. apply List.length_map.
Qed.

(** C10.  [save_progress] on an empty list of rows returns at once and
    leaves the spreadsheets on disk as they are; hence a run of [main]
    that ends without a row leaves them as they were at the start, the
    final save included. *)
Theorem empty_rows_leave_no_spreadsheet (all_fields : gset string)
    (filename : string) (sheets0 : gmap string Sheet)
    (args : Args) (base_output_dir : string)
    (bootstrap : result unit) (initial_height : result Z)
    (script : nat -> CycleObs) (fs : gmap string string) :
  save_progress [] all_fields filename sheets0 = sheets0
  /\ exists out,
       main args base_output_dir bootstrap initial_height script fs sheets0
       = Some out
       /\ (out_rows out = [] -> out_sheets out = sheets0).
Proof.
  split; [reflexivity|].
  destruct (main_final_save args base_output_dir bootstrap initial_height
              script fs sheets0) as (out & Hmain & Hnil & _).
  exists out. split; assumption.
Qed.

Lemma empty_rows_leave_no_spreadsheet_witness :
  save_progress [] ∅ "shots.xlsx" ∅ = ∅
  /\ exists out,
       main sample_args "out" (Ret tt) (Ret 4000) empty_page ∅ ∅ = Some out
       /\ out_rows out = [] /\ out_sheets out = ∅.
Proof.
  destruct (empty_rows_leave_no_spreadsheet ∅ "shots.xlsx" ∅ sample_args "out"
              (Ret tt) (Ret 4000) empty_page ∅) as (Hsave & out & Hmain & Himp).
  split; [exact Hsave|]. exists out. split; [exact Hmain|].
  assert (Hrows : out_rows out = []).
  { assert (Hm : option_map out_rows
             (main sample_args "out" (Ret tt) (Ret 4000) empty_page ∅ ∅)
             = Some []) by (vm_compute; reflexivity).
    rewrite Hmain in Hm. injection Hm as Hm. exact Hm. }
  split; [exact Hrows|apply Himp; exact Hrows].
Defined.

Example main_saves_all_rows :
  option_map (fun out => (out_exit out, List.length (out_rows out),
                          option_map (fun s => List.length (sheet_body s))
                            (out_sheets out !! "out/shots.xlsx"),
                          out_sheets out !! "out/shotdeck_progress_temp.xlsx"))
    (main sample_args "out" (Ret tt) (Ret 4000) static_page ∅ ∅)
  = Some (Ret tt, 2%nat, Some 2%nat, None).
Proof. vm_compute. reflexivity. Qed.

(** ** Text helpers *)

Lemma rstrip_by_tail (p : ascii -> bool) (c : ascii) (s : string) :
  rstrip_by p (String c s) = String c s -> rstrip_by p s = s.
Proof.
  cbn [rstrip_by]. destruct (rstrip_by p s) as [|d r] eqn:Hr.
  - destruct (p c); [discriminate|]. intros [= <-]. reflexivity.
  - intros [= <-]. reflexivity.
Qed.

Lemma rstrip_by_cons (p : ascii -> bool) (c : ascii) (s : string) :
  rstrip_by p s = s -> (p c = false \/ s <> "") ->
  rstrip_by p (String c s) = String c s.
Proof.
  intros Hs Hc. cbn [rstrip_by]. rewrite Hs.
  destruct s as [|d r]; [|reflexivity].
  destruct Hc as [->|Hne]; [reflexivity|contradiction].
Qed.

Lemma rstrip_by_idem (p : ascii -> bool) (s : string) :
  rstrip_by p (rstrip_by p s) = rstrip_by p s.
Proof.
  induction s as [|c s IH]; [reflexivity|].
  cbn [rstrip_by]. destruct (rstrip_by p s) as [|d r] eqn:Hr.
  - destruct (p c) eqn:Hp; [reflexivity|]. cbn. rewrite Hp. reflexivity.
  - apply rstrip_by_cons; [exact IH|right; discriminate].
Qed.

Lemma rstrip_by_space_tail (p : ascii -> bool) (c : ascii) (s : string) :
  rstrip_by p (String c s) = String c s -> p c = true -> s <> "".
Proof.
  intros H Hp ->. cbn in H. rewrite Hp in H. discriminate.
Qed.

(** After a replaced run, and before the end of a right-trimmed text, the
    next character written is not white space. *)
Lemma sub_runs_in_run_head (s : string) :
  rstrip_by is_space s = s -> s <> "" ->
  exists d out, sub_runs is_space " " true s = String d out /\ is_space d = false.
Proof.
  induction s as [|c s IH]; intros Hr Hne; [contradiction|].
  cbn [sub_runs]. destruct (is_space c) eqn:Hc.
  - apply IH; [eapply rstrip_by_tail; exact Hr|].
    eapply rstrip_by_space_tail; eassumption.
  - eauto.
Qed.

Lemma sub_runs_single_spaced (s : string) (in_run : bool) :
  rstrip_by is_space s = s ->
  single_spaced (sub_runs is_space " " in_run s) = true.
Proof.
  revert in_run. induction s as [|c s IH]; intros in_run Hr; [reflexivity|].
  pose proof (rstrip_by_tail _ _ _ Hr) as Hs.
  cbn [sub_runs]. destruct (is_space c) eqn:Hc.
  - destruct in_run; [apply IH; exact Hs|].
    change (" " ++ sub_runs is_space " " true s)
      with (String " " (sub_runs is_space " " true s)).
    destruct (sub_runs_in_run_head s Hs
                (rstrip_by_space_tail _ _ _ Hr Hc)) as (d & out & Hout & Hd).
    pose proof (IH true Hs) as Hss. rewrite Hout in Hss |- *.
    cbn [single_spaced] in Hss |- *. rewrite Hd. cbn. rewrite Hd in Hss.
    exact Hss.
  - cbn [single_spaced]. rewrite Hc. cbn. apply IH. exact Hs.
Qed.

Lemma lstrip_by_head (p : ascii -> bool) (s : string) :
  match lstrip_by p s with
  | String c _ => p c = false
  | EmptyString => True
  end.
Proof.
  induction s as [|c s IH]; [exact I|].
  cbn [lstrip_by]. destruct (p c) eqn:Hp; [exact IH|exact Hp].
Qed.

Lemma rstrip_by_head (p : ascii -> bool) (c : ascii) (s : string) :
  p c = false -> exists r, rstrip_by p (String c s) = String c r.
Proof.
  intros Hp. cbn [rstrip_by]. destruct (rstrip_by p s); [rewrite Hp|]; eauto.
Qed.

Lemma strip_head (s : string) :
  match strip s with
  | String c _ => is_space c = false
  | EmptyString => True
  end.
Proof.
  unfold strip. pose proof (lstrip_by_head is_space s) as Hl.
  destruct (lstrip_by is_space s) as [|c r]; [exact I|].
  destruct (rstrip_by_head is_space c r Hl) as [r' ->]. exact Hl.
Qed.

(** X1.  The text that [get_text] returns is in normal form: no white
    space at either end, and every white-space character in it is a single
    space between two other characters. *)
Theorem get_text_normal (text : string) : normal_text (get_text text) = true.
Proof.
  unfold normal_text, get_text. apply andb_true_iff. split.
  - apply sub_runs_single_spaced. unfold strip. apply rstrip_by_idem.
  - pose proof (strip_head text) as Hh.
    destruct (strip text) as [|c r]; [reflexivity|].
    cbn [sub_runs]. rewrite Hh. cbn. rewrite Hh. reflexivity.
Qed.

Lemma single_spaced_fixed (s : string) :
  single_spaced s = true ->
  sub_runs is_space " " false s = s
  /\ rstrip_by is_space s = s.
Proof.
  induction s as [|c s IH]; intros Hs; [split; reflexivity|].
  cbn [single_spaced] in Hs. apply andb_true_iff in Hs as [Hc Hs].
  destruct (IH Hs) as [IHsub IHr]. cbn [sub_runs].
  destruct (is_space c) eqn:Hsp.
  - apply andb_true_iff in Hc as [Heq Hnext]. apply Ascii.eqb_eq in Heq. subst c.
    destruct s as [|d r]; [discriminate|]. apply negb_true_iff in Hnext.
    split.
    + cbn [sub_runs]. rewrite Hnext.
      cbn [sub_runs] in IHsub. rewrite Hnext in IHsub.
      injection IHsub as IHsub. cbn. rewrite IHsub. reflexivity.
    + apply rstrip_by_cons; [exact IHr|right; discriminate].
  - split; [rewrite IHsub; reflexivity|].
    apply rstrip_by_cons; [exact IHr|left; exact Hsp].
Qed.

(** X2.  [get_text] is idempotent: normalising a normalised text changes
    nothing. *)
Theorem get_text_idempotent (text : string) :
  get_text (get_text text) = get_text text.
Proof.
  pose proof (get_text_normal text) as Hn. unfold normal_text in Hn.
  apply andb_true_iff in Hn as [Hs Hh].
  destruct (single_spaced_fixed _ Hs) as [Hsub Hr].
  set (n := get_text text) in *. unfold get_text, strip.
  assert (Hl : lstrip_by is_space n = n).
  { destruct n as [|c r]; [reflexivity|]. cbn [lstrip_by].
    apply negb_true_iff in Hh. rewrite Hh. reflexivity. }
  rewrite Hl, Hr. exact Hsub.
Qed.

Example get_text_collapses :
  get_text ("  Heat " ++ String newline "   (1995) " ++ String newline "")
  = "Heat (1995)".
Proof. reflexivity. Qed.
Lemma lower_char_not_upper (c : ascii) : is_upper (lower_char c) = false.
Proof. destruct c as [[] [] [] [] [] [] [] []]; vm_compute; reflexivity. Qed.

Lemma lower_char_colon (c : ascii) : is_colon (lower_char c) = is_colon c.
Proof. destruct c as [[] [] [] [] [] [] [] []]; vm_compute; reflexivity. Qed.

Lemma lower_char_fixed (c : ascii) : is_upper c = false -> lower_char c = c.
Proof. unfold is_upper, lower_char. intros ->. reflexivity. Qed.

Lemma string_forall_app (p : ascii -> bool) (s1 s2 : string) :
  string_forall p (s1 ++ s2) = string_forall p s1 && string_forall p s2.
Proof.
  induction s1 as [|c s1 IH]; [reflexivity|].
  simpl. rewrite IH. apply andb_assoc.
Qed.

Lemma lower_no_upper (s : string) :
  string_forall (fun c => negb (is_upper c)) (lower s) = true.
Proof.
  induction s as [|c s IH]; [reflexivity|].
  cbn [lower string_forall]. rewrite lower_char_not_upper, IH. reflexivity.
Qed.

(** What [re.sub] leaves: no character of the class, and nothing that the
    text and the replacement did not have. *)
Lemma sub_runs_forall (cls q : ascii -> bool) (rep : string) (s : string)
    (in_run : bool) :
  string_forall q s = true ->
  string_forall (fun c => negb (cls c) && q c) rep = true ->
  string_forall (fun c => negb (cls c) && q c) (sub_runs cls rep in_run s) = true.
Proof.
  intros Hs Hrep. revert in_run.
  induction s as [|c s IH]; intros in_run; [reflexivity|].
  cbn [string_forall] in Hs. apply andb_true_iff in Hs as [Hc Hs].
  specialize (IH Hs). cbn [sub_runs]. destruct (cls c) eqn:Hcls.
  - destruct in_run; [apply IH|]. rewrite string_forall_app, Hrep. apply IH.
  - cbn [string_forall]. rewrite Hcls, Hc. apply IH.
Qed.

Lemma string_forall_impl (p q : ascii -> bool) (s : string) :
  (forall c, p c = true -> q c = true) ->
  string_forall p s = true -> string_forall q s = true.
Proof.
  intros Hpq. induction s as [|c s IH]; [reflexivity|].
  cbn [string_forall]. intros [Hc Hs]%andb_true_iff.
  rewrite (Hpq c Hc), (IH Hs). reflexivity.
Qed.

Lemma replace_hyphen_field_name (s : string) :
  string_forall (fun c => negb (is_space_or_slash c) && negb (is_upper c)) s = true ->
  string_forall field_name_char (replace_char "-" "_" s) = true.
Proof.
  induction s as [|c s IH]; [reflexivity|].
  cbn [string_forall replace_char]. intros [Hc Hs]%andb_true_iff.
  rewrite (IH Hs), andb_true_r.
  destruct (Ascii.eqb_spec c "-") as [->|Hne]; [reflexivity|].
  unfold field_name_char. unfold is_space_or_slash in Hc.
  apply andb_true_iff in Hc as [Hcls Hup]. apply negb_true_iff in Hcls.
  apply orb_false_iff in Hcls as [Hsp Hsl]. rewrite Hsp, Hsl, Hup.
  destruct (Ascii.eqb_spec c "-"); [contradiction|reflexivity].
Qed.

(** X3.  A normalised field name contains no white space, no slash, no
    hyphen and no upper-case letter. *)
Theorem normalize_field_name_chars (label : string) :
  string_forall field_name_char (normalize_field_name label) = true.
Proof.
  unfold normalize_field_name. apply replace_hyphen_field_name.
  apply sub_runs_forall; [apply lower_no_upper|reflexivity].
Qed.

Lemma strip_by_fixed (p : ascii -> bool) (s : string) :
  string_forall (fun c => negb (p c)) s = true ->
  lstrip_by p s = s /\ rstrip_by p s = s.
Proof.
  induction s as [|c s IH]; [split; reflexivity|].
  cbn [string_forall]. intros [Hc Hs]%andb_true_iff.
  apply negb_true_iff in Hc. destruct (IH Hs) as [_ Hr]. split.
  - cbn [lstrip_by]. rewrite Hc. reflexivity.
  - apply rstrip_by_cons; [exact Hr|left; exact Hc].
Qed.

Lemma sub_runs_fixed (cls : ascii -> bool) (rep : string) (s : string) :
  string_forall (fun c => negb (cls c)) s = true ->
  sub_runs cls rep false s = s.
Proof.
  induction s as [|c s IH]; [reflexivity|].
  cbn [string_forall sub_runs]. intros [Hc Hs]%andb_true_iff.
  apply negb_true_iff in Hc. rewrite Hc, (IH Hs). reflexivity.
Qed.

Lemma lower_fixed (s : string) :
  string_forall (fun c => negb (is_upper c)) s = true -> lower s = s.
Proof.
  induction s as [|c s IH]; [reflexivity|].
  cbn [string_forall lower]. intros [Hc Hs]%andb_true_iff.
  apply negb_true_iff in Hc. rewrite (lower_char_fixed c Hc), (IH Hs). reflexivity.
Qed.

Lemma replace_char_fixed (a b : ascii) (s : string) :
  string_forall (fun c => negb (Ascii.eqb c a)) s = true ->
  replace_char a b s = s.
Proof.
  induction s as [|c s IH]; [reflexivity|].
  cbn [string_forall replace_char]. intros [Hc Hs]%andb_true_iff.
  apply negb_true_iff in Hc. rewrite Hc, (IH Hs). reflexivity.
Qed.

Lemma rstrip_colon_lower (s : string) :
  rstrip_by is_colon (lower s) = lower (rstrip_by is_colon s).
Proof.
  induction s as [|c s IH]; [reflexivity|].
  cbn [lower rstrip_by]. rewrite IH.
  destruct (rstrip_by is_colon s) as [|d r]; cbn [lower].
  - rewrite lower_char_colon. destruct (is_colon c); reflexivity.
  - reflexivity.
Qed.

Lemma rstrip_colon_replace (s : string) :
  rstrip_by is_colon (replace_char "-" "_" s)
  = replace_char "-" "_" (rstrip_by is_colon s).
Proof.
  induction s as [|c s IH]; [reflexivity|].
  cbn [replace_char rstrip_by]. rewrite IH.
  destruct (rstrip_by is_colon s) as [|d r]; cbn [replace_char]; [|reflexivity].
  destruct (Ascii.eqb c "-") eqn:He.
  - apply Ascii.eqb_eq in He. subst c. reflexivity.
  - destruct (is_colon c); cbn [replace_char]; rewrite ?He; reflexivity.
Qed.

Lemma sub_runs_nonempty (cls : ascii -> bool) (s : string) :
  s <> "" -> sub_runs cls "_" false s <> "".
Proof.
  destruct s as [|c s]; [contradiction|]. intros _.
  cbn [sub_runs]. destruct (cls c); discriminate.
Qed.

Lemma rstrip_colon_sub_runs (s : string) (in_run : bool) :
  rstrip_by is_colon s = s ->
  rstrip_by is_colon (sub_runs is_space_or_slash "_" in_run s)
  = sub_runs is_space_or_slash "_" in_run s.
Proof.
  revert in_run. induction s as [|c s IH]; intros in_run Hr; [reflexivity|].
  pose proof (rstrip_by_tail _ _ _ Hr) as Hs.
  cbn [sub_runs]. destruct (is_space_or_slash c) eqn:Hcls.
  - destruct in_run; [apply IH; exact Hs|].
    change ("_" ++ sub_runs is_space_or_slash "_" true s)
      with (String "_" (sub_runs is_space_or_slash "_" true s)).
    apply rstrip_by_cons; [apply IH; exact Hs|left; reflexivity].
  - apply rstrip_by_cons; [apply IH; exact Hs|].
    destruct (is_colon c) eqn:Hcol; [right|left; reflexivity].
    apply sub_runs_nonempty. eapply rstrip_by_space_tail; eassumption.
Qed.

(** X4.  [normalize_field_name] is idempotent: a normalised name is its
    own normal form. *)
Theorem normalize_field_name_idempotent (label : string) :
  normalize_field_name (normalize_field_name label) = normalize_field_name label.
Proof.
  pose proof (normalize_field_name_chars label) as Hchars.
  assert (Hcolon : rstrip_by is_colon (normalize_field_name label)
                   = normalize_field_name label).
  { unfold normalize_field_name.
    rewrite rstrip_colon_replace. f_equal.
    apply rstrip_colon_sub_runs.
    rewrite rstrip_colon_lower. f_equal. apply rstrip_by_idem. }
  set (n := normalize_field_name label) in *.
  unfold normalize_field_name at 1. unfold strip.
  assert (Hsp : string_forall (fun c => negb (is_space c)) n = true).
  { eapply string_forall_impl; [|exact Hchars]. unfold field_name_char.
    intros c H. destruct (is_space c); [discriminate|reflexivity]. }
  destruct (strip_by_fixed is_space n Hsp) as [-> ->]. rewrite Hcolon.
  rewrite lower_fixed.
  2:{ eapply string_forall_impl; [|exact Hchars]. unfold field_name_char.
      intros c H. destruct (is_upper c);
        [rewrite !andb_false_r in H; discriminate|reflexivity]. }
  rewrite sub_runs_fixed.
  2:{ eapply string_forall_impl; [|exact Hchars].
      unfold field_name_char, is_space_or_slash.
      intros c H. destruct (is_space c), (Ascii.eqb c "/"); try discriminate.
      reflexivity. }
  apply replace_char_fixed.
  eapply string_forall_impl; [|exact Hchars]. unfold field_name_char.
  intros c H. destruct (Ascii.eqb c "-");
    [rewrite ?andb_false_r in H; cbn in H; discriminate|reflexivity].
Qed.

(** ** More on the aspect-ratio classifier *)

(** X5.  The fraction depends on the proportions only: scaling both
    dimensions by the same positive factor gives the same fraction. *)
Theorem aspect_ratio_fraction_scale (k w h : Z) :
  0 < k -> 0 < w -> 0 < h ->
  aspect_ratio_fraction (k * w) (k * h) = aspect_ratio_fraction w h.
Proof.
  intros Hk Hw Hh. unfold aspect_ratio_fraction.
  rewrite !gcd_is_Zgcd by lia.
  rewrite Z.gcd_mul_mono_l_nonneg by lia.
  assert (Hg : 0 < Z.gcd w h).
  { pose proof (Z.gcd_nonneg w h).
    assert (Z.gcd w h <> 0) by (intros H0; apply Z.gcd_eq_0_l in H0; lia). lia. }
  rewrite !Z.div_mul_cancel_l by lia. reflexivity.
Qed.

Lemma aspect_ratio_fraction_scale_witness :
  aspect_ratio_fraction (240 * 16) (240 * 9) = aspect_ratio_fraction 16 9.
Proof.
  apply (aspect_ratio_fraction_scale 240 16 9); lia.
Defined.

(** ** More on the tile scanner *)

(** X6.  On a tile that is attached to the page [parse_tile_basic]
    returns a dict with exactly the seven tile keys, and the four tile
    attributes and the grid title are strings, never [None]. *)
Theorem parse_tile_basic_keys (tile : TileDom) :
  el_stale (tile_el tile) = false ->
  exists d,
    parse_tile_basic tile = Ret d
    /\ dom d = list_to_set tile_keys
    /\ forall k,
         In k ["shot_id"; "titleyear"; "shot_status"; "title_content_status";
               "grid_title_raw"] ->
         exists s, d !! k = Some (Some s).
Proof.
  intros Hlive. unfold parse_tile_basic, get_attribute, find_element.
  rewrite Hlive. cbn [bind]. eexists. split; [reflexivity|]. split.
  - rewrite !dom_insert_L, dom_empty_L. unfold tile_keys. cbn [list_to_set].
    set_solver.
  - intros k Hk. cbn [In] in Hk.
    destruct Hk as [<-|[<-|[<-|[<-|[<-|[]]]]]];
      repeat (rewrite lookup_insert_ne by discriminate);
      rewrite lookup_insert_eq; try (eexists; reflexivity).
    destruct (tile_title tile) as [title_el|]; cbn [bind try_except];
      [|eexists; reflexivity].
    unfold get_text_of. destruct (el_stale title_el); cbn [bind try_except];
      eexists; reflexivity.
Qed.

Lemma parse_tile_basic_keys_witness :
  exists d,
    parse_tile_basic tile_without_src = Ret d
    /\ dom d = list_to_set tile_keys
    /\ forall k,
         In k ["shot_id"; "titleyear"; "shot_status"; "title_content_status";
               "grid_title_raw"] ->
         exists s, d !! k = Some (Some s).
Proof.
  apply (parse_tile_basic_keys tile_without_src). reflexivity.
Defined.

(** X7.  The fields are read independently: replacing the title element
    and the thumbnail link of an attached tile, by anything, changes
    neither the four tile attributes nor the set of keys; replacing only
    the thumbnail link keeps the grid title as well, and replacing only
    the title keeps [thumb_src] and [data_filename]. *)
Theorem parse_tile_basic_isolated (tile : TileDom) (title : option Element)
    (thumb : option Thumb) :
  el_stale (tile_el tile) = false ->
  exists d d',
    parse_tile_basic tile = Ret d
    /\ parse_tile_basic (with_sub_elements title thumb tile) = Ret d'
    /\ dom d' = dom d
    /\ (forall k,
          In k ["shot_id"; "titleyear"; "shot_status"; "title_content_status"] ->
          d' !! k = d !! k)
    /\ (title = tile_title tile -> d' !! "grid_title_raw" = d !! "grid_title_raw")
    /\ (thumb = tile_thumb tile ->
        d' !! "thumb_src" = d !! "thumb_src"
        /\ d' !! "data_filename" = d !! "data_filename").
Proof.
  intros Hlive. unfold parse_tile_basic, get_attribute, find_element.
  cbn [tile_el tile_title tile_thumb with_sub_elements].
  rewrite Hlive. cbn [bind]. eexists _, _.
  split; [reflexivity|]. split; [reflexivity|]. split; [|split; [|split]].
  - rewrite !dom_insert_L. reflexivity.
  - intros k Hk. cbn [In] in Hk.
    destruct Hk as [<-|[<-|[<-|[<-|[]]]]];
      repeat (rewrite lookup_insert_ne by discriminate);
      rewrite !lookup_insert_eq; reflexivity.
  - intros ->. repeat (rewrite lookup_insert_ne by discriminate).
    rewrite !lookup_insert_eq. reflexivity.
  - intros ->. split.
    + repeat (rewrite lookup_insert_ne by discriminate).
      rewrite !lookup_insert_eq. reflexivity.
    + rewrite !lookup_insert_eq. reflexivity.
Qed.

Lemma parse_tile_basic_isolated_witness :
  exists d d',
    parse_tile_basic tile_without_src = Ret d
    /\ parse_tile_basic (with_sub_elements None None tile_without_src) = Ret d'
    /\ dom d' = dom d
    /\ (forall k,
          In k ["shot_id"; "titleyear"; "shot_status"; "title_content_status"] ->
          d' !! k = d !! k)
    /\ (None = tile_title tile_without_src ->
        d' !! "grid_title_raw" = d !! "grid_title_raw")
    /\ (None = tile_thumb tile_without_src ->
        d' !! "thumb_src" = d !! "thumb_src"
        /\ d' !! "data_filename" = d !! "data_filename").
Proof.
  apply (parse_tile_basic_isolated tile_without_src None None). reflexivity.
Defined.

(** ** More on the detail-panel extractor *)

Lemma foldl_record_group_lookup (gs : list DetailGroup) (data : record)
    (k : string) :
  Forall (fun g => forall v, parse_group g <> Ret (k, v)) gs ->
  foldl record_group data gs !! k = data !! k.
Proof.
  intros Hgs. revert data.
  induction Hgs as [|g gs Hg _ IH]; intros data; [reflexivity|].
  cbn [foldl]. rewrite IH. unfold record_group.
  destruct (parse_group g) as [[label value]|e] eqn:Hp; [|reflexivity].
  apply lookup_insert_ne. intros ->. exact (Hg value eq_refl).
Qed.

Lemma foldl_record_group_strings (gs : list DetailGroup) (data : record) :
  (forall k v, data !! k = Some v -> exists s, v = Some s) ->
  (forall k v, foldl record_group data gs !! k = Some v -> exists s, v = Some s)
  /\ dom data ⊆ dom (foldl record_group data gs).
Proof.
  revert data. induction gs as [|g gs IH]; intros data Hdata.
  - split; [exact Hdata|reflexivity].
  - cbn [foldl].
    assert (Hstep : (forall k v, record_group data g !! k = Some v ->
                                 exists s, v = Some s)
                    /\ dom data ⊆ dom (record_group data g)).
    { unfold record_group.
      destruct (parse_group g) as [[label value]|e]; [|split; [exact Hdata|reflexivity]].
      split.
      - intros k v. destruct (decide (label = k)) as [->|Hne].
        + rewrite lookup_insert_eq. intros [= <-]. eauto.
        + rewrite lookup_insert_ne by exact Hne. apply Hdata.
      - rewrite dom_insert_L. apply union_subseteq_r. }
    destruct Hstep as [Hs Hd]. destruct (IH _ Hs) as [IHs IHd].
    split; [exact IHs|]. etrans; eassumption.
Qed.

(** X8.  A detail group whose extraction raises is skipped and leaves no
    trace: the result is the one for the detail view without that
    group. *)
Theorem parse_modal_skips_failed_group (m : ModalDom)
    (before after : list DetailGroup) (g : DetailGroup) :
  modal_groups m = Ret (before ++ g :: after)%list ->
  raises (parse_group g) ->
  parse_modal m = parse_modal (with_groups (Ret (before ++ after)%list) m).
Proof.
  intros Hgroups [e He]. unfold parse_modal.
  cbn [with_groups modal_title modal_swatches modal_groups modal_hero_link
       modal_hero_img].
  rewrite Hgroups. cbn [bind]. rewrite !foldl_app. cbn [foldl].
  unfold record_group at 2. rewrite He. reflexivity.
Qed.

Lemma parse_modal_skips_failed_group_witness :
  parse_modal
    (with_groups
       (Ret ([full_location_group]
             ++ {| grp_el := live ∅ ""; grp_type := None; grp_details := None |}
             :: [blank_span_group])%list) sample_modal)
  = parse_modal
      (with_groups (Ret ([full_location_group] ++ [blank_span_group])%list)
         (with_groups
            (Ret ([full_location_group]
                  ++ {| grp_el := live ∅ ""; grp_type := None;
                        grp_details := None |}
                  :: [blank_span_group])%list) sample_modal)).
Proof.
  apply (parse_modal_skips_failed_group _ [full_location_group]
           [blank_span_group]
           {| grp_el := live ∅ ""; grp_type := None; grp_details := None |}).
  - reflexivity.
  - exists NoSuchElementException. reflexivity.
Defined.

(** X9.  The image reference is read from the hero after every group: it
    is the [href] of the hero link whenever that link can be read, even
    when the attribute is absent (then [None], without a look at the
    image); the [src] of the hero image when the link cannot be read; and
    the empty string when neither can.  No detail group can override
    it. *)
Theorem parse_modal_image_url (m : ModalDom) (gs : list DetailGroup) :
  modal_groups m = Ret gs ->
  exists data,
    parse_modal m = Ret data
    /\ (forall a, modal_hero_link m = Some a -> el_stale a = false ->
        data !! "image_url" = Some (el_attrs a !! "href"))
    /\ (unusable (modal_hero_link m) ->
        forall img, modal_hero_img m = Some img -> el_stale img = false ->
        data !! "image_url" = Some (el_attrs img !! "src"))
    /\ (unusable (modal_hero_link m) -> unusable (modal_hero_img m) ->
        data !! "image_url" = Some (Some "")).
Proof.
  intros Hgroups. unfold parse_modal. rewrite Hgroups. cbn [bind].
  eexists. split; [reflexivity|]. rewrite !lookup_insert_eq.
  unfold find_element, get_attribute. cbn [el_stale live_driver].
  split; [|split].
  - intros a -> Ha. cbn [bind]. rewrite Ha. reflexivity.
  - intros Hlink img -> Himg.
    destruct (modal_hero_link m) as [a|]; cbn in Hlink |- *;
      [rewrite Hlink; cbn|]; rewrite Himg; reflexivity.
  - intros Hlink Himg.
    destruct (modal_hero_link m) as [a|]; cbn in Hlink |- *;
      [rewrite Hlink; cbn|];
      (destruct (modal_hero_img m) as [img|]; cbn in Himg |- *;
         [rewrite Himg|]; reflexivity).
Qed.

Lemma parse_modal_image_url_witness :
  exists data,
    parse_modal sample_modal = Ret data
    /\ (forall a, modal_hero_link sample_modal = Some a -> el_stale a = false ->
        data !! "image_url" = Some (el_attrs a !! "href"))
    /\ (unusable (modal_hero_link sample_modal) ->
        forall img, modal_hero_img sample_modal = Some img ->
        el_stale img = false ->
        data !! "image_url" = Some (el_attrs img !! "src"))
    /\ (unusable (modal_hero_link sample_modal) ->
        unusable (modal_hero_img sample_modal) ->
        data !! "image_url" = Some (Some "")).
Proof.
  apply (parse_modal_image_url sample_modal [full_location_group; blank_span_group]).
  reflexivity.
Defined.

(** X10.  [parse_modal] raises only when listing the groups raises; a
    missing header or palette does not fail the extraction.  In the dict
    it returns the keys [title_year_raw], [palette_hex] and [image_url]
    are always present, and every value other than [image_url] is a
    string, never [None]. *)
Theorem parse_modal_fields (m : ModalDom) :
  (forall e, modal_groups m = Raise e -> parse_modal m = Raise e)
  /\ (forall gs, modal_groups m = Ret gs ->
      exists data,
        parse_modal m = Ret data
        /\ {[ "title_year_raw"; "palette_hex"; "image_url" ]} ⊆ dom data
        /\ forall k v, data !! k = Some v -> k <> "image_url" ->
                       exists s, v = Some s).
Proof.
  split.
  - intros e He. unfold parse_modal. rewrite He. reflexivity.
  - intros gs Hgs. unfold parse_modal. rewrite Hgs. cbn [bind].
    eexists. split; [reflexivity|].
    match goal with |- context [foldl record_group ?d gs] =>
      destruct (foldl_record_group_strings gs d) as [Hstr Hdom] end.
    { intros k v. destruct (decide ("palette_hex" = k)) as [<-|Hp].
      - rewrite lookup_insert_eq. intros [= <-]. eauto.
      - rewrite lookup_insert_ne by exact Hp.
        destruct (decide ("title_year_raw" = k)) as [<-|Ht].
        + rewrite lookup_insert_eq. intros [= <-]. eauto.
        + rewrite lookup_insert_ne by exact Ht. rewrite lookup_empty.
          discriminate. }
    split.
    + rewrite dom_insert_L. rewrite !dom_insert_L in Hdom.
      intros x Hx. apply elem_of_union.
      destruct (decide (x = "image_url")) as [->|Hne];
        [left; apply elem_of_singleton; reflexivity|right].
      apply Hdom. apply elem_of_union.
      destruct (decide (x = "palette_hex")) as [->|Hnp];
        [left; apply elem_of_singleton; reflexivity|right].
      apply elem_of_union. left. apply elem_of_singleton.
      apply elem_of_union in Hx as [Hx|Hx];
        [apply elem_of_union in Hx as [Hx|Hx]|];
        apply elem_of_singleton in Hx; congruence.
    + intros k v Hk Hne. rewrite lookup_insert_ne in Hk by congruence.
      eapply Hstr. exact Hk.
Qed.

Lemma drop_prefix_app (p s : string) : drop_prefix p (p ++ s) = Some s.
Proof.
  induction p as [|c p IH]; [destruct s; reflexivity|].
  simpl. rewrite Ascii.eqb_refl. exact IH.
Qed.

Lemma until_semicolon_app (v rest : string) :
  string_forall (fun d => negb (Ascii.eqb d ";")) v = true ->
  until_semicolon (v ++ String ";" rest) = v.
Proof.
  induction v as [|c v IH]; [reflexivity|].
  simpl. intros [Hc Hv]%andb_true_iff. apply negb_true_iff in Hc.
  rewrite Hc, (IH Hv). reflexivity.
Qed.

Lemma search_background_color_unfold (style : string) :
  search_background_color style
  = match match drop_prefix "background-color:" style with
          | Some rest => color_value rest
          | None => None
          end, style with
    | Some v, _ => Some v
    | None, String _ style' => search_background_color style'
    | None, EmptyString => None
    end.
Proof. destruct style; reflexivity. Qed.

Lemma color_value_plain (v : string) :
  plain_color v = true -> color_value (String " " (v ++ ";")) = Some v.
Proof.
  intros Hv. destruct v as [|c v]; [discriminate|].
  cbn [plain_color] in Hv. apply andb_true_iff in Hv as [Hc Hv].
  apply negb_true_iff in Hc.
  unfold color_value.
  assert (Hskip : skip_spaces None (String " " (String c v ++ ";"))
                  = (Some " "%char, String c v ++ String ";" "")).
  { simpl. rewrite Hc. reflexivity. }
  rewrite Hskip. rewrite until_semicolon_app by exact Hv. reflexivity.
Qed.

Lemma search_background_color_declared (v : string) :
  plain_color v = true ->
  search_background_color ("background-color: " ++ v ++ ";") = Some v.
Proof.
  intros Hv. rewrite search_background_color_unfold.
  change ("background-color: " ++ v ++ ";")
    with ("background-color:" ++ String " " (v ++ ";")).
  rewrite drop_prefix_app, (color_value_plain v Hv). reflexivity.
Qed.

Lemma swatch_color_declared (v : string) :
  plain_color v = true -> swatch_color (swatch_of v) = Ret (Some v).
Proof.
  intros Hv. unfold swatch_color, get_attribute, swatch_of, live.
  cbn [el_stale el_attrs]. cbn [bind].
  rewrite lookup_singleton_eq.
  change (truthy_opt (Some ("background-color: " ++ v ++ ";"))) with true.
  change (or_empty (Some ("background-color: " ++ v ++ ";")))
    with ("background-color: " ++ v ++ ";").
  rewrite (search_background_color_declared v Hv). reflexivity.
Qed.

(** X11.  For swatches whose style declares a plain colour the palette is
    the list of the colours, in order, joined with commas. *)
Theorem palette_hex_of_swatches (colors : list string) :
  Forall (fun v => plain_color v = true) colors ->
  palette_hex (map swatch_of colors) = Ret (join "," colors).
Proof.
  intros Hcolors. unfold palette_hex.
  assert (Hmap : map_result swatch_color (map swatch_of colors)
                 = Ret (map Some colors)).
  { induction Hcolors as [|v colors Hv _ IH]; [reflexivity|].
    cbn [map map_result]. rewrite IH, (swatch_color_declared v Hv).
    reflexivity. }
  rewrite Hmap. cbn [bind]. f_equal. f_equal. clear Hcolors Hmap.
  induction colors as [|v colors IH]; [reflexivity|].
  cbn [map omap list_omap]. cbn. f_equal. exact IH.
Qed.

Lemma palette_hex_of_swatches_witness :
  palette_hex (map swatch_of ["rgb(12, 34, 56)"; "#a0b1c2"])
  = Ret (join "," ["rgb(12, 34, 56)"; "#a0b1c2"]).
Proof.
  apply (palette_hex_of_swatches ["rgb(12, 34, 56)"; "#a0b1c2"]).
  repeat constructor.
Defined.

Lemma map_result_raises {A B : Type} (f : A -> result B) (l : list A) (a : A) :
  In a l -> raises (f a) -> raises (map_result f l).
Proof.
  intros Hin [e He]. induction l as [|x l IH]; [destruct Hin|].
  cbn [map_result]. destruct Hin as [->|Hin].
  - rewrite He. exists e. reflexivity.
  - destruct (f x) as [y|e']; [|exists e'; reflexivity].
    destruct (IH Hin) as [e' He']. rewrite He'. exists e'. reflexivity.
Qed.

(** X12.  The palette is all or nothing: when the style of one swatch is
    not empty and declares no background colour that the pattern finds,
    the palette recorded is the empty string, whatever the other swatches
    declare (unless a detail group is itself labelled [palette_hex]). *)
Theorem palette_hex_all_or_nothing (m : ModalDom) (swatches : list Element)
    (gs : list DetailGroup) (a : Element) (style : string) :
  modal_swatches m = Ret swatches -> modal_groups m = Ret gs ->
  In a swatches -> el_stale a = false ->
  el_attrs a !! "style" = Some style -> style <> "" ->
  search_background_color style = None ->
  Forall (fun g => forall v, parse_group g <> Ret ("palette_hex", v)) gs ->
  exists data,
    parse_modal m = Ret data /\ data !! "palette_hex" = Some (Some "").
Proof.
  intros Hsw Hgs Hin Hlive Hstyle Hne Hsearch Hlabels.
  assert (Hraise : raises (palette_hex swatches)).
  { unfold palette_hex.
    destruct (map_result_raises swatch_color swatches a Hin) as [e He].
    - unfold swatch_color, get_attribute. rewrite Hlive, Hstyle. cbn [bind].
      destruct style as [|c s]; [contradiction|].
      cbn [truthy_opt truthy or_empty]. rewrite Hsearch.
      exists AttributeError. reflexivity.
    - rewrite He. exists e. reflexivity. }
  destruct Hraise as [e He].
  unfold parse_modal. rewrite Hsw, Hgs. cbn [bind]. rewrite He.
  eexists. split; [reflexivity|].
  rewrite lookup_insert_ne by discriminate.
  rewrite foldl_record_group_lookup by exact Hlabels.
  rewrite lookup_insert_eq. reflexivity.
Qed.

Lemma palette_hex_all_or_nothing_witness :
  exists data,
    parse_modal bad_swatch_modal = Ret data
    /\ data !! "palette_hex" = Some (Some "").
Proof.
  apply (palette_hex_all_or_nothing bad_swatch_modal
           [swatch_of "#a0b1c2"; live {[ "style" := "background-color:;" ]} ""]
           [] (live {[ "style" := "background-color:;" ]} "")
           "background-color:;").
  - reflexivity.
  - reflexivity.
  - right. left. reflexivity.
  - reflexivity.
  - reflexivity.
  - discriminate.
  - reflexivity.
  - constructor.
Defined.

(** ** More on the image fetcher *)





Example image_extension_samples :
  map image_extension
    [ "https://cdn.example/stills/AB12CD.JPG"; "https://cdn.example/a.webp?w=2";
      "https://cdn.example/a.gif"; "https://cdn.example/stills/AB12CD";
      "https://cdn.example/a.tar.png"; "https://cdn.example/v1.2/shot" ]
  = [ ".jpg"; ".webp"; ".jpg"; ".jpg"; ".png"; ".jpg" ].
Proof. vm_compute. reflexivity. Qed.







(** ** The interaction controller *)

Lemma safe_click_from_false (attempts : nat -> ClickAttempt) (remaining attempt : nat) :
  snd (safe_click_from attempts remaining attempt) = Ret false
  <-> forall i, (i < remaining)%nat -> attempt_fails (attempts (attempt + i)%nat).
Proof.
  revert attempt. induction remaining as [|remaining IH]; intros attempt.
  - cbn. split; [intros _ i Hi; lia|reflexivity].
  - cbn [safe_click_from]. unfold attempt_fails at 1.
    split.
    + intros H i Hi.
      destruct (try_click (attempts attempt)) as [[]|e] eqn:Hc; [discriminate|].
      destruct (retryable e) eqn:Hre; [|discriminate].
      destruct (try_rescroll (attempts attempt)) as [[]|e1] eqn:Hs; [|discriminate].
      destruct (try_script_click (attempts attempt)) as [[]|e2] eqn:Hj;
        [discriminate|].
      destruct (try_pointer_click (attempts attempt)) as [[]|e3] eqn:Hp;
        [discriminate|].
      cbn [snd] in H. destruct i as [|i].
      * rewrite Nat.add_0_r. unfold attempt_fails, raises.
        rewrite Hc, Hs, Hj, Hp. eauto 10.
      * replace (attempt + S i)%nat with (S attempt + i)%nat by lia.
        apply (proj1 (IH (S attempt)) H). lia.
    + intros H. pose proof (H 0%nat ltac:(lia)) as H0.
      rewrite Nat.add_0_r in H0.
      destruct H0 as ((e & Hc & Hre) & Hs & (e2 & Hj) & (e3 & Hp)).
      rewrite Hc, Hre, Hs, Hj, Hp. cbn [snd].
      apply IH. intros i Hi.
      replace (S attempt + i)%nat with (attempt + S i)%nat by lia.
      apply H. lia.
Qed.

Lemma safe_click_from_actions (attempts : nat -> ClickAttempt) (remaining attempt : nat) :
  (List.length (fst (safe_click_from attempts remaining attempt)) <= 4 * remaining)%nat.
Proof.
  revert attempt. induction remaining as [|remaining IH]; intros attempt.
  - cbn. lia.
  - cbn [safe_click_from].
    repeat (case_match; cbn [fst List.length]; try lia).
    rewrite List.length_app. cbn [List.length].
    specialize (IH (S attempt)). lia.
Qed.

(** X17.  [safe_click_element] returns [False] exactly when every one of
    its attempts fails in all three ways (the click is intercepted or
    stale, the script click fails, the pointer click fails); in
    particular at once, without touching the page, when [max_attempts] is
    not positive.  It never does more than four actions per attempt. *)
Theorem safe_click_element_exhausted (attempts : nat -> ClickAttempt)
    (max_attempts : Z) :
  (snd (safe_click_element attempts max_attempts) = Ret false
   <-> forall i, (i < Z.to_nat max_attempts)%nat -> attempt_fails (attempts i))
  /\ (max_attempts <= 0 ->
      safe_click_element attempts max_attempts = ([], Ret false))
  /\ (List.length (fst (safe_click_element attempts max_attempts))
      <= 4 * Z.to_nat max_attempts)%nat.
Proof.
  unfold safe_click_element. split; [|split].
  - apply (safe_click_from_false attempts (Z.to_nat max_attempts) 0).
  - intros Hle. replace (Z.to_nat max_attempts) with 0%nat by lia. reflexivity.
  - apply safe_click_from_actions.
Qed.

(** X18.  [safe_click_element] raises only from the first click (an
    exception other than the two it retries on) or from the scroll that
    follows an intercepted click; a failure of the script click or of the
    pointer click never escapes. *)
Theorem safe_click_element_raises (attempts : nat -> ClickAttempt)
    (max_attempts : Z) (e : py_exn) :
  snd (safe_click_element attempts max_attempts) = Raise e ->
  exists i, (i < Z.to_nat max_attempts)%nat
    /\ ((try_click (attempts i) = Raise e /\ retryable e = false)
        \/ ((exists e', try_click (attempts i) = Raise e' /\ retryable e' = true)
            /\ try_rescroll (attempts i) = Raise e)).
Proof.
  unfold safe_click_element.
  assert (H : forall remaining attempt,
             snd (safe_click_from attempts remaining attempt) = Raise e ->
             exists i, (attempt <= i < attempt + remaining)%nat
               /\ ((try_click (attempts i) = Raise e /\ retryable e = false)
                   \/ ((exists e', try_click (attempts i) = Raise e'
                                   /\ retryable e' = true)
                       /\ try_rescroll (attempts i) = Raise e))).
  { induction remaining as [|remaining IH]; intros attempt; [discriminate|].
    cbn [safe_click_from].
    destruct (try_click (attempts attempt)) as [[]|e0] eqn:Hc; [discriminate|].
    destruct (retryable e0) eqn:Hre.
    - destruct (try_rescroll (attempts attempt)) as [[]|e1] eqn:Hs.
      + destruct (try_script_click (attempts attempt)) as [[]|e2];
          [discriminate|].
        destruct (try_pointer_click (attempts attempt)) as [[]|e3];
          [discriminate|].
        cbn [snd]. intros Hrest.
        destruct (IH (S attempt) Hrest) as (i & Hi & Hcase).
        exists i. split; [lia|exact Hcase].
      + cbn [snd]. intros [= <-]. exists attempt. split; [lia|].
        right. split; [eauto|exact Hs].
    - cbn [snd]. intros [= <-]. exists attempt. split; [lia|].
      left. split; [exact Hc|exact Hre]. }
  intros Hr. destruct (H _ _ Hr) as (i & Hi & Hcase).
  exists i. split; [lia|exact Hcase].
Qed.

Lemma safe_click_element_raises_witness :
  exists i, (i < Z.to_nat 3)%nat
    /\ ((try_click broken_click = Raise WebDriverException
         /\ retryable WebDriverException = false)
        \/ ((exists e', try_click broken_click = Raise e' /\ retryable e' = true)
            /\ try_rescroll broken_click = Raise WebDriverException)).
Proof.
  apply (safe_click_element_raises (fun _ => broken_click) 3 WebDriverException).
  reflexivity.
Defined.

(** X19.  [open_shot_modal] returns only when the thumbnail link exists
    and the detail view has become visible.  When all three attempts of
    the click fail in every way it raises
    [ElementClickInterceptedException], without waiting for the detail
    view, after one scroll and twelve actions on the link. *)
Theorem open_shot_modal_outcome (tile : TileDom) (o : OpenObs) :
  (snd (open_shot_modal tile o) = Ret tt ->
   el_stale (tile_el tile) = false
   /\ (exists thumb, tile_thumb tile = Some thumb)
   /\ open_scroll o = Ret tt
   /\ snd (safe_click_element (open_clicks o) 3) = Ret true
   /\ open_visible o = Ret tt)
  /\ (el_stale (tile_el tile) = false ->
      (exists thumb, tile_thumb tile = Some thumb) ->
      open_scroll o = Ret tt ->
      (forall i, (i < 3)%nat -> attempt_fails (open_clicks o i)) ->
      snd (open_shot_modal tile o) = Raise ElementClickInterceptedException
      /\ List.length (fst (open_shot_modal tile o)) = 13%nat
      /\ ~ In ActWait (fst (open_shot_modal tile o))).
Proof.
  unfold open_shot_modal, find_element. split.
  - destruct (el_stale (tile_el tile)); [discriminate|].
    destruct (tile_thumb tile) as [thumb|]; [|discriminate].
    destruct (open_scroll o) as [[]|e]; [|discriminate].
    destruct (snd (safe_click_element (open_clicks o) 3)) as [[]|e];
      [|discriminate|discriminate].
    destruct (open_visible o) as [[]|e]; [|discriminate].
    intros _. repeat split; eauto.
  - intros -> [thumb ->] -> Hfail.
    pose proof (Hfail 0%nat ltac:(lia)) as H0.
    pose proof (Hfail 1%nat ltac:(lia)) as H1.
    pose proof (Hfail 2%nat ltac:(lia)) as H2.
    destruct H0 as ((e0 & Hc0 & Hr0) & Hs0 & (a0 & Hj0) & (b0 & Hp0)).
    destruct H1 as ((e1 & Hc1 & Hr1) & Hs1 & (a1 & Hj1) & (b1 & Hp1)).
    destruct H2 as ((e2 & Hc2 & Hr2) & Hs2 & (a2 & Hj2) & (b2 & Hp2)).
    unfold safe_click_element. change (Z.to_nat 3) with 3%nat.
    cbn [safe_click_from].
    rewrite Hc0, Hr0, Hs0, Hj0, Hp0, Hc1, Hr1, Hs1, Hj1, Hp1,
      Hc2, Hr2, Hs2, Hj2, Hp2.
    cbn. split; [reflexivity|]. split; [reflexivity|].
    intros H. repeat (destruct H as [H|H]; [discriminate|]). exact H.
Qed.

Lemma open_shot_modal_outcome_witness :
  snd (open_shot_modal (obs_tile (sample_tile "AB12CD"))
         {| open_scroll := Ret tt; open_clicks := fun _ => blocked_click;
            open_visible := Ret tt |})
  = Raise ElementClickInterceptedException
  /\ List.length
       (fst (open_shot_modal (obs_tile (sample_tile "AB12CD"))
               {| open_scroll := Ret tt; open_clicks := fun _ => blocked_click;
                  open_visible := Ret tt |})) = 13%nat
  /\ ~ In ActWait
         (fst (open_shot_modal (obs_tile (sample_tile "AB12CD"))
                 {| open_scroll := Ret tt; open_clicks := fun _ => blocked_click;
                    open_visible := Ret tt |})).
Proof.
  apply (proj2 (open_shot_modal_outcome (obs_tile (sample_tile "AB12CD"))
                  {| open_scroll := Ret tt; open_clicks := fun _ => blocked_click;
                     open_visible := Ret tt |})).
  - reflexivity.
  - eexists. reflexivity.
  - reflexivity.
  - intros i _. unfold attempt_fails, blocked_click, raises. cbn.
    repeat split; eauto.
Defined.

(** X20.  [close_modal] sends Escape exactly when closing by the button
    fails (button missing, click refused, or the detail view still there
    after the wait), and then once; it raises only when that Escape itself
    raises, and never when the button works. *)
Theorem close_modal_escape (c : CloseObs) :
  (button_works c ->
   snd (close_modal c) = Ret tt
   /\ occurrences ActEscape (fst (close_modal c)) = 0%nat)
  /\ (~ button_works c ->
      snd (close_modal c) = close_escape c
      /\ occurrences ActEscape (fst (close_modal c)) = 1%nat).
Proof.
  unfold button_works, close_modal, find_element. cbn [el_stale live_driver].
  split.
  - intros ([b ->] & -> & ->). split; reflexivity.
  - intros Hfail.
    destruct (close_button c) as [b|]; [|split; reflexivity].
    destruct (close_click c) as [[]|e1]; [|split; reflexivity].
    destruct (close_hidden c) as [[]|e2]; [|split; reflexivity].
    exfalso. apply Hfail. eauto.
Qed.

(** X21.  [wait_for_gallery] with a retry count that is not positive
    returns [False] at once, without waiting.  With a positive count it
    never returns [False]: when the first [k] waits time out, the
    refreshes succeed and the next wait succeeds, it returns [True] after
    [k] refreshes; when all [max_retries] waits time out it raises
    [TimeoutException] after [max_retries - 1] refreshes. *)
Theorem wait_for_gallery_retries (waits refreshes : nat -> result unit)
    (max_retries : Z) :
  (max_retries <= 0 ->
   wait_for_gallery waits refreshes max_retries = ([], Ret false))
  /\ (0 < max_retries ->
      snd (wait_for_gallery waits refreshes max_retries) <> Ret false)
  /\ (forall k,
        (k < Z.to_nat max_retries)%nat ->
        (forall i, (i < k)%nat ->
                   waits i = Raise TimeoutException /\ refreshes i = Ret tt) ->
        waits k = Ret tt ->
        wait_for_gallery waits refreshes max_retries
        = ((retry_rounds k ++ [ActWait])%list, Ret true))
  /\ (0 < max_retries ->
      (forall i, (i < Z.to_nat max_retries)%nat ->
                 waits i = Raise TimeoutException /\ refreshes i = Ret tt) ->
      wait_for_gallery waits refreshes max_retries
      = ((retry_rounds (Z.to_nat max_retries - 1) ++ [ActWait])%list,
         Raise TimeoutException)).
Proof.
  unfold wait_for_gallery. split; [|split; [|split]].
  - intros Hle. replace (Z.to_nat max_retries) with 0%nat by lia. reflexivity.
  - intros Hpos.
    assert (H : forall remaining retries, (0 < remaining)%nat ->
               snd (gallery_loop waits refreshes remaining retries) <> Ret false).
    { induction remaining as [|remaining IH]; intros retries Hr; [lia|].
      cbn [gallery_loop].
      destruct (waits retries) as [[]|e]; [discriminate|].
      destruct e; try discriminate.
      destruct remaining as [|remaining]; [discriminate|].
      destruct (refreshes retries) as [[]|e]; [|discriminate].
      cbn [snd]. apply IH. lia. }
    apply H. lia.
  - intros k.
    assert (H : forall remaining retries, (k < remaining)%nat ->
               (forall i, (i < k)%nat ->
                  waits (retries + i)%nat = Raise TimeoutException
                  /\ refreshes (retries + i)%nat = Ret tt) ->
               waits (retries + k)%nat = Ret tt ->
               gallery_loop waits refreshes remaining retries
               = ((retry_rounds k ++ [ActWait])%list, Ret true)).
    { induction k as [|k IH]; intros remaining retries Hk Hto Hok.
      - destruct remaining as [|remaining]; [lia|]. cbn [gallery_loop].
        rewrite Nat.add_0_r in Hok. rewrite Hok. reflexivity.
      - destruct remaining as [|remaining]; [lia|]. cbn [gallery_loop].
        destruct (Hto 0%nat ltac:(lia)) as [Hw Hr].
        rewrite Nat.add_0_r in Hw, Hr. rewrite Hw, Hr.
        destruct remaining as [|remaining]; [lia|].
        rewrite (IH (S remaining) (S retries)).
        + reflexivity.
        + lia.
        + intros i Hi.
          replace (S retries + i)%nat with (retries + S i)%nat by lia.
          apply Hto. lia.
        + replace (S retries + k)%nat with (retries + S k)%nat by lia.
          exact Hok. }
    intros Hk Hto Hok. apply H; [exact Hk|exact Hto|exact Hok].
  - intros Hpos Hto.
    assert (H : forall remaining retries, (0 < remaining)%nat ->
               (forall i, (i < remaining)%nat ->
                  waits (retries + i)%nat = Raise TimeoutException
                  /\ refreshes (retries + i)%nat = Ret tt) ->
               gallery_loop waits refreshes remaining retries
               = ((retry_rounds (remaining - 1) ++ [ActWait])%list,
                  Raise TimeoutException)).
    { induction remaining as [|remaining IH]; intros retries Hr Hall; [lia|].
      cbn [gallery_loop].
      destruct (Hall 0%nat ltac:(lia)) as [Hw Hf].
      rewrite Nat.add_0_r in Hw, Hf. rewrite Hw.
      destruct remaining as [|remaining]; [reflexivity|].
      rewrite Hf. rewrite (IH (S retries)).
      + cbn [fst snd]. replace (S (S remaining) - 1)%nat with (S remaining) by lia.
        replace (S remaining - 1)%nat with remaining by lia. reflexivity.
      + lia.
      + intros i Hi.
        replace (S retries + i)%nat with (retries + S i)%nat by lia.
        apply Hall. lia. }
    apply H; [lia|exact Hto].
Qed.

Lemma wait_for_gallery_retries_witness :
  wait_for_gallery (fun _ => Raise TimeoutException) (fun _ => Ret tt) 0
  = ([], Ret false)
  /\ wait_for_gallery (fun _ => Raise TimeoutException) (fun _ => Ret tt) 3
     = ((retry_rounds (Z.to_nat 3 - 1) ++ [ActWait])%list, Raise TimeoutException).
Proof.
  split.
  - apply (proj1 (wait_for_gallery_retries (fun _ => Raise TimeoutException)
                    (fun _ => Ret tt) 0)). lia.
  - apply (proj2 (proj2 (proj2 (wait_for_gallery_retries
                    (fun _ => Raise TimeoutException) (fun _ => Ret tt) 3)))).
    + lia.
    + intros i _. split; reflexivity.
Defined.

(** ** More on the engine *)

Section EngineInvariants.
Variable globals : gmap string string.
Variable script : nat -> CycleObs.
Variable max_shots : Z.
Variable img_dir : string.
Variable batch_size : Z.

(** A property of the state that every tile processed below the limit
    keeps, and that the bookkeeping of the loop does not see, holds at the
    end of the loop when it holds at its start. *)
Lemma scrape_loop_preserves (P : Engine -> Prop) :
  (forall st t, processed_count st < max_shots -> P st ->
                P (process_tile globals img_dir batch_size st t)) ->
  (forall st, P st -> P (log EvCycle st)) ->
  (forall st, P st -> P (begin_cycle st)) ->
  (forall st n, P st -> P (with_no_new n st)) ->
  (forall st h, P st -> P (with_height h st)) ->
  forall fuel n st st',
    scrape_loop globals script max_shots img_dir batch_size fuel n st = Some st' ->
    P st -> P st'.
Proof.
  intros Htile Hlog Hbegin Hnew Hheight.
  assert (Htiles : forall tiles st, P st ->
            P (process_tiles globals max_shots img_dir batch_size st tiles)).
  { induction tiles as [|t tiles IH]; intros st HP; cbn [process_tiles].
    - exact HP.
    - destruct (Z.leb_spec max_shots (processed_count st)); [exact HP|].
      apply IH, Htile; [lia|exact HP]. }
  assert (Hcycle : forall n st, P st ->
            P (flow_state
                 (scrape_cycle globals script max_shots img_dir batch_size n st))).
  { intros n st HP. unfold scrape_cycle.
    destruct (cyc_tiles (script n)) as [tiles|]; cbn [flow_state]; [|auto].
    set (st1 := process_tiles _ _ _ _ _ tiles).
    assert (H1 : P st1) by (apply Htiles; auto).
    assert (H2 : P (if new_tiles_processed st1 =? 0
                    then with_no_new (consecutive_no_new st1 + 1) st1
                    else with_no_new 0 st1))
      by (destruct (_ =? 0); auto).
    repeat case_match; cbn [flow_state]; auto. }
  induction fuel as [|fuel IH]; intros n st st'; cbn [scrape_loop].
  - case_match; [|discriminate]. intros [= <-]. auto.
  - case_match; [intros [= <-]; auto|].
    pose proof (Hcycle n st) as Hc.
    destruct (scrape_cycle _ _ _ _ _ n st) as [st1|st1]; cbn [flow_state] in Hc.
    + intros [= <-]. exact Hc.
    + intros Hl HP. eapply IH; [exact Hl|]. apply Hc. exact HP.
Qed.

Lemma checkpoint_keeps (st : Engine) :
  let st' := try_except (checkpoint globals batch_size st) st in
  rows st' = rows st /\ all_fields st' = all_fields st
  /\ processed_count st' = processed_count st
  /\ processed_shots st' = processed_shots st /\ files st' = files st.
Proof.
  unfold checkpoint, try_except. repeat case_match; simplify_eq;
    repeat split; reflexivity.
Qed.

(** What processing one tile does to the rows: nothing, or one more
    row, counted once, with the keys of the tile, of the detail view and
    of the image. *)
Lemma process_tile_rows (st : Engine) (t : TileObs) :
  let st' := process_tile globals img_dir batch_size st t in
  (rows st' = rows st /\ all_fields st' = all_fields st
   /\ processed_count st' = processed_count st)
  \/ (exists basic_info details info,
        parse_tile_basic (obs_tile t) = Ret basic_info
        /\ parse_modal (obs_modal t) = Ret details
        /\ rows st' = (rows st ++ [make_record basic_info details info])%list
        /\ all_fields st'
           = all_fields st ∪ dom (make_record basic_info details info)
        /\ processed_count st' = processed_count st + 1).
Proof.
  unfold process_tile.
  destruct (parse_tile_basic (obs_tile t)) as [basic_info|]; [|left; auto].
  case_match; [left; auto|].
  destruct (obs_open t); [|left; auto].
  destruct (parse_modal (obs_modal t)) as [details|]; [|left; auto].
  destruct (obs_close t); [|left; auto].
  destruct (snd (save_image _ _ _ _ _)) as [info|]; [|left; auto].
  right. exists basic_info, details, info.
  match goal with |- context [try_except (checkpoint _ _ ?s) _] =>
    destruct (checkpoint_keeps s) as (Hr & Hf & Hc & _) end.
  cbn zeta in Hr, Hf, Hc. rewrite Hr, Hf, Hc. repeat split; reflexivity.
Qed.

Lemma make_record_dom (basic_info details : record) (info : image_info) :
  dom (make_record basic_info details info)
  = {[ "image_aspect_ratio_cinema"; "image_aspect_ratio_fraction";
       "image_height"; "image_width"; "image_path" ]}
    ∪ dom details ∪ dom basic_info.
Proof.
  destruct info as [[[[p w] h] f] c]. unfold make_record.
  rewrite !dom_insert_L, dom_union_L.
  apply set_eq. intros x. rewrite !elem_of_union, !elem_of_singleton. tauto.
Qed.

Lemma parse_tile_basic_dom (tile : TileDom) (d : record) :
  parse_tile_basic tile = Ret d -> dom d = list_to_set tile_keys.
Proof.
  unfold parse_tile_basic, get_attribute.
  destruct (el_stale (tile_el tile)); [discriminate|]. cbn [bind].
  intros [= <-]. rewrite !dom_insert_L, dom_empty_L. unfold tile_keys.
  cbn [list_to_set].
  apply set_eq. intros x. rewrite !elem_of_union, !elem_of_singleton. tauto.
Qed.

Lemma parse_modal_dom (m : ModalDom) (d : record) :
  parse_modal m = Ret d ->
  {[ "title_year_raw"; "palette_hex"; "image_url" ]} ⊆ dom d.
Proof.
  unfold parse_modal. destruct (modal_groups m) as [gs|]; [|discriminate].
  cbn [bind]. intros [= <-].
  match goal with |- context [foldl record_group ?d0 gs] =>
    assert (Hdom : dom d0 ⊆ dom (foldl record_group d0 gs)) end.
  { generalize (<["palette_hex":=Some
       (try_except (let* swatches := modal_swatches m in palette_hex swatches) "")]>
       (<["title_year_raw":=Some
            (try_except (let* title_hdr := modal_title m in get_text_of title_hdr) "")]>
          (∅ : record))).
    induction gs as [|g gs IH]; intros d0; [reflexivity|].
    cbn [foldl]. etrans; [|apply IH]. unfold record_group.
    destruct (parse_group g) as [[label value]|]; [|reflexivity].
    rewrite dom_insert_L. apply union_subseteq_r. }
  rewrite !dom_insert_L in *. rewrite dom_empty_L in Hdom.
  intros x Hx. apply elem_of_union.
  destruct (decide (x = "image_url")) as [->|Hne];
    [left; apply elem_of_singleton; reflexivity|right].
  apply Hdom. rewrite !elem_of_union, !elem_of_singleton in Hx |- *.
  destruct Hx as [[Hx|Hx]|Hx]; [right; left; exact Hx|left; exact Hx|].
  apply elem_of_singleton in Hx. contradiction.
Qed.

(** X22.  A run never records more rows than [max_shots] allows: the
    counter equals the number of rows, and it does not exceed
    [max_shots] (so a limit that is not positive gives no row). *)
Theorem incremental_scrape_respects_limit (initial_height : Z)
    (seen : gset string) (fs : gmap string string) (sh : gmap string Sheet) :
  exists st,
    incremental_scrape globals script max_shots img_dir batch_size
      initial_height seen fs sh = Some st
    /\ processed_count st = Z.of_nat (List.length (rows st))
    /\ processed_count st <= Z.max 0 max_shots.
Proof.
  destruct (incremental_scrape_returns globals script max_shots img_dir
              batch_size initial_height seen fs sh) as (st & Hrun & _).
  exists st. split; [exact Hrun|].
  unfold incremental_scrape in Hrun.
  apply (scrape_loop_preserves
           (fun st => processed_count st = Z.of_nat (List.length (rows st))
                      /\ processed_count st <= Z.max 0 max_shots)
           ) with (st := start initial_height seen fs sh) in Hrun; auto.
  - intros st0 t Hlt [Hlen Hmax].
    destruct (process_tile_rows st0 t) as [(Hr & _ & Hc)|(b & d & i & _ & _ & Hr & _ & Hc)];
      cbn zeta in Hr, Hc; rewrite Hr, Hc.
    + split; assumption.
    + rewrite List.length_app. cbn [List.length]. split; lia.
  - cbn. split; lia.
Qed.

(** X23.  The set of fields is the union of the keys of the rows, and
    every row has the fourteen fixed columns of the spreadsheet and the
    key [palette_hex]: no fixed column is ever missing from a row. *)
Theorem incremental_scrape_row_keys (initial_height : Z)
    (seen : gset string) (fs : gmap string string) (sh : gmap string Sheet) :
  exists st,
    incremental_scrape globals script max_shots img_dir batch_size
      initial_height seen fs sh = Some st
    /\ all_fields st = ⋃ (map dom (rows st))
    /\ Forall (fun row : record =>
                 list_to_set fixed_columns ∪ {[ "palette_hex" ]} ⊆ dom row)
         (rows st).
Proof.
  destruct (incremental_scrape_returns globals script max_shots img_dir
              batch_size initial_height seen fs sh) as (st & Hrun & _).
  exists st. split; [exact Hrun|].
  unfold incremental_scrape in Hrun.
  apply (scrape_loop_preserves
           (fun st => all_fields st = ⋃ (map dom (rows st))
                      /\ Forall (fun row : record =>
                                   list_to_set fixed_columns ∪ {[ "palette_hex" ]}
                                   ⊆ dom row) (rows st))
           ) with (st := start initial_height seen fs sh) in Hrun; auto.
  - intros st0 t _ [Hfields Hrows].
    destruct (process_tile_rows st0 t)
      as [(Hr & Hf & _)|(b & d & i & Hb & Hd & Hr & Hf & _)];
      cbn zeta in Hr, Hf; rewrite Hr, Hf.
    + split; assumption.
    + split.
      * rewrite map_app, union_list_app_L. cbn [map union_list foldr].
        rewrite Hfields, (right_id_L ∅ (∪)). reflexivity.
      * apply Forall_app. split; [exact Hrows|]. constructor; [|constructor].
        rewrite make_record_dom, (parse_tile_basic_dom _ _ Hb).
        pose proof (parse_modal_dom _ _ Hd) as Hmodal.
        unfold fixed_columns, tile_keys. cbn [list_to_set app].
        intros x Hx. rewrite !elem_of_union, !elem_of_singleton in Hx.
        rewrite !elem_of_union.
        assert (Hm : forall y, y = "title_year_raw" \/ y = "palette_hex"
                               \/ y = "image_url" -> y ∈ dom d).
        { intros y Hy. apply Hmodal.
          rewrite !elem_of_union, !elem_of_singleton. tauto. }
        rewrite !elem_of_singleton.
        destruct Hx as [Hx|Hx];
          [|left; right; apply Hm; tauto].
        repeat (destruct Hx as [Hx|Hx];
                [try (left; right; apply Hm; tauto); try tauto|]);
          try (left; right; apply Hm; tauto); try tauto.
Qed.

Lemma scrape_loop_cycles (fuel n : nat) (st st' : Engine) :
  consecutive_no_new st < max_consecutive_no_new ->
  scrape_loop globals script max_shots img_dir batch_size fuel n st = Some st' ->
  cycles (events st') - cycles (events st)
  <= Z.max 0 (potential max_shots st - 3).
Proof.
  revert n st. induction fuel as [|fuel IH]; intros n st Hcnn;
    cbn [scrape_loop]; destruct (Z.leb_spec max_shots (processed_count st)).
  - intros [= <-]. lia.
  - discriminate.
  - intros [= <-]. lia.
  - pose proof (scrape_cycle_cycles globals script max_shots img_dir batch_size
                  n st) as Hcyc.
    destruct (scrape_cycle _ _ _ _ _ n st) as [st1|st1] eqn:Hc;
      cbn [flow_state] in Hcyc.
    + intros [= <-]. unfold potential, max_consecutive_no_new in *. lia.
    + intros Hl.
      apply scrape_cycle_continue in Hc as (_ & Hpc & Hcnn1 & Hpot).
      specialize (Hpot Hcnn). specialize (IH _ _ Hcnn1 Hl).
      unfold potential, max_consecutive_no_new in *. lia.
Qed.

(** X25.  The gallery is scanned at most three times per requested shot:
    a run makes at most [3 * max_shots] cycles of its loop, and none when
    [max_shots] is not positive. *)
Theorem incremental_scrape_cycle_bound (initial_height : Z)
    (seen : gset string) (fs : gmap string string) (sh : gmap string Sheet) :
  exists st,
    incremental_scrape globals script max_shots img_dir batch_size
      initial_height seen fs sh = Some st
    /\ cycles (events st) <= Z.max 0 (3 * max_shots).
Proof.
  destruct (incremental_scrape_returns globals script max_shots img_dir
              batch_size initial_height seen fs sh) as (st & Hrun & _).
  exists st. split; [exact Hrun|].
  unfold incremental_scrape in Hrun.
  apply scrape_loop_cycles in Hrun; [|reflexivity].
  unfold potential, max_consecutive_no_new in Hrun. cbn in Hrun.
  change (cycles []) with 0 in Hrun. lia.
Qed.




Lemma same_data_refl (st : Engine) : same_data st st.
Proof. repeat split. Qed.

Lemma process_tile_same_data (st st' : Engine) (t : TileObs) :
  same_data st st' ->
  same_data (process_tile globals img_dir batch_size st t)
            (process_tile globals img_dir batch_size st' t).
Proof.
  destruct st, st'. unfold same_data. cbn.
  intros (-> & -> & -> & -> & -> & -> & -> & -> & ->).
  unfold process_tile, checkpoint, try_except. cbn.
  repeat case_match; simplify_eq; cbn; repeat split; reflexivity.
Qed.

Lemma process_tiles_same_data (tiles : list TileObs) (st st' : Engine) :
  same_data st st' ->
  same_data (process_tiles globals max_shots img_dir batch_size st tiles)
            (process_tiles globals max_shots img_dir batch_size st' tiles).
Proof.
  revert st st'. induction tiles as [|t tiles IH]; intros st st' Hsame;
    cbn [process_tiles]; [exact Hsame|].
  assert (Hpc : processed_count st = processed_count st') by apply Hsame.
  rewrite Hpc. destruct (max_shots <=? processed_count st'); [exact Hsame|].
  apply IH, process_tile_same_data, Hsame.
Qed.

Lemma process_tiles_full (tiles : list TileObs) (st : Engine) :
  max_shots <= processed_count st ->
  process_tiles globals max_shots img_dir batch_size st tiles = st.
Proof.
  intros Hfull. destruct tiles; cbn [process_tiles]; [reflexivity|].
  destruct (Z.leb_spec max_shots (processed_count st)); [reflexivity|lia].
Qed.

Lemma process_tile_fails (st : Engine) (t : TileObs) :
  tile_fails t ->
  same_data (process_tile globals img_dir batch_size st t) st.
Proof.
  intros Hfail. unfold process_tile.
  destruct (parse_tile_basic (obs_tile t)) as [basic_info|] eqn:Htile;
    [|apply same_data_refl].
  destruct (_ || _); [apply same_data_refl|].
  destruct (obs_open t) eqn:Hopen; [|repeat split].
  destruct (parse_modal (obs_modal t)) as [details|] eqn:Hmodal;
    [|repeat split].
  destruct (obs_close t) eqn:Hclose; [|repeat split].
  destruct Hfail as [[e He]|[[e He]|[[e He]|[e He]]]]; congruence.
Qed.

(** X24.  A tile that fails is skipped and nothing else: when reading a
    tile, opening its detail view, extracting it or closing it raises, the
    scan of the list gives the same rows, fields, counters, seen-set,
    files and spreadsheets as the scan of the list without that tile. *)
Theorem failing_tile_is_skipped (st : Engine) (before after : list TileObs)
    (t : TileObs) :
  tile_fails t ->
  same_data
    (process_tiles globals max_shots img_dir batch_size st
       (before ++ t :: after))
    (process_tiles globals max_shots img_dir batch_size st (before ++ after)).
Proof.
  intros Hfail. revert st.
  induction before as [|b before IH]; intros st; cbn [app process_tiles].
  - destruct (Z.leb_spec max_shots (processed_count st)) as [Hfull|_].
    + rewrite process_tiles_full by exact Hfull. apply same_data_refl.
    + apply process_tiles_same_data, process_tile_fails, Hfail.
  - destruct (max_shots <=? processed_count st); [apply same_data_refl|].
    apply IH.
Qed.
End EngineInvariants.

Lemma failing_tile_is_skipped_witness :
  same_data
    (process_tiles module_globals 5 "shotdeck_images" 20 (start 900 ∅ ∅ ∅)
       [sample_tile "AB12CD"; unopenable_tile "EF34GH"; sample_tile "IJ56KL"])
    (process_tiles module_globals 5 "shotdeck_images" 20 (start 900 ∅ ∅ ∅)
       [sample_tile "AB12CD"; sample_tile "IJ56KL"]).
Proof.
  apply (failing_tile_is_skipped module_globals 5 "shotdeck_images" 20
           (start 900 ∅ ∅ ∅) [sample_tile "AB12CD"] [sample_tile "IJ56KL"]
           (unopenable_tile "EF34GH")).
  right. left. exists ElementClickInterceptedException. reflexivity.
Defined.

(** ** More on the spreadsheet writer *)

Lemma insert_sorted_perm (x : string) (l : list string) :
  insert_sorted x l ≡ₚ x :: l.
Proof.
  induction l as [|y l IH]; cbn [insert_sorted]; [reflexivity|].
  destruct (String.leb x y); [reflexivity|].
  rewrite IH. apply Permutation_swap.
Qed.

Lemma sorted_perm (l : list string) : sorted l ≡ₚ l.
Proof.
  induction l as [|x l IH]; [reflexivity|].
  unfold sorted in *. cbn [foldr]. rewrite insert_sorted_perm, IH. reflexivity.
Qed.

Lemma insert_sorted_Sorted (x : string) (l : list string) :
  Sorted str_le l -> Sorted str_le (insert_sorted x l).
Proof.
  induction l as [|y l IH]; intros Hl; cbn [insert_sorted].
  - repeat constructor.
  - destruct (String.leb x y) eqn:Hxy.
    + constructor; [exact Hl|]. constructor. exact Hxy.
    + apply Sorted_inv in Hl as [Hl Hy].
      constructor; [apply IH; exact Hl|].
      destruct l as [|z l]; cbn [insert_sorted].
      * constructor. destruct (String.leb_total x y) as [H|H];
          [congruence|exact H].
      * destruct (String.leb x z).
        -- constructor. destruct (String.leb_total x y) as [H|H];
             [congruence|exact H].
        -- constructor. apply HdRel_inv in Hy. exact Hy.
Qed.

Lemma sorted_Sorted (l : list string) : Sorted str_le (sorted l).
Proof.
  induction l as [|x l IH]; [constructor|].
  unfold sorted in *. cbn [foldr]. apply insert_sorted_Sorted, IH.
Qed.

Lemma in_list_false (s : string) (l : list string) :
  in_list s l = false <-> s ∉ l.
Proof.
  unfold in_list. induction l as [|x l IH]; cbn [existsb].
  - split; [intros _; apply not_elem_of_nil|reflexivity].
  - rewrite orb_false_iff, IH, not_elem_of_cons, String.eqb_neq. reflexivity.
Qed.

Lemma lookup_map {A B : Type} (f : A -> B) (l : list A) (i : nat) :
  map f l !! i = f <$> l !! i.
Proof.
  revert i. induction l as [|x l IH]; intros [|i]; cbn; auto.
Qed.

(** The sheet that [save_progress] writes when there is a row. *)
Lemma save_progress_rows (rows : list record) (all_fields : gset string)
    (filename : string) (sheets : gmap string Sheet) :
  rows <> [] ->
  let dynamic :=
    sorted (List.filter (fun c => negb (in_list c fixed_columns))
              (elements all_fields)) in
  save_progress rows all_fields filename sheets
  = <[filename :=
        {| sheet_columns := (fixed_columns ++ dynamic)%list;
           sheet_body :=
             map (fun row =>
                    map (cell (⋃ (map dom rows)) (column_dtype rows) row)
                      (fixed_columns ++ dynamic)%list) rows |}]> sheets.
Proof.
  intros Hrows. destruct rows as [|row rest]; [contradiction|reflexivity].
Qed.

Lemma dynamic_columns (all_fields : gset string) (c : string) :
  c ∈ sorted (List.filter (fun c => negb (in_list c fixed_columns))
                (elements all_fields))
  <-> c ∈ all_fields /\ c ∉ fixed_columns.
Proof.
  rewrite sorted_perm, list_elem_of_In, filter_In, <- list_elem_of_In,
    elem_of_elements, negb_true_iff, in_list_false.
  reflexivity.
Qed.

Lemma dynamic_columns_NoDup (all_fields : gset string) :
  NoDup (sorted (List.filter (fun c => negb (in_list c fixed_columns))
                   (elements all_fields))).
Proof.
  rewrite sorted_perm. apply NoDup_ListNoDup, List.NoDup_filter,
    NoDup_ListNoDup, NoDup_elements.
Qed.

Lemma fixed_columns_NoDup : NoDup fixed_columns.
Proof.
  apply (bool_decide_unpack _). vm_compute. reflexivity.
Qed.

(** X27.  When there is a row, [save_progress] writes a rectangular
    sheet: the header has no column twice, there is one line per row and
    every line has one cell per column; no other spreadsheet on disk
    changes. *)
Theorem save_progress_rectangular (rows : list record)
    (all_fields : gset string) (filename : string)
    (sheets : gmap string Sheet) :
  rows <> [] ->
  exists sheet,
    save_progress rows all_fields filename sheets !! filename = Some sheet
    /\ NoDup (sheet_columns sheet)
    /\ List.length (sheet_body sheet) = List.length rows
    /\ Forall (fun line : list string =>
                 List.length line = List.length (sheet_columns sheet))
         (sheet_body sheet)
    /\ forall other, other <> filename ->
         save_progress rows all_fields filename sheets !! other
         = sheets !! other.
Proof.
  intros Hrows. rewrite (save_progress_rows _ _ _ _ Hrows). cbn zeta.
  eexists. split; [apply lookup_insert_eq|]. cbn [sheet_columns sheet_body].
  split; [|split; [|split]].
  - apply NoDup_app. split; [apply fixed_columns_NoDup|].
    split; [|apply dynamic_columns_NoDup].
    intros c Hfixed Hdyn. apply dynamic_columns in Hdyn as [_ Hnot].
    exact (Hnot Hfixed).
  - apply List.length_map.
  - apply Forall_forall. intros line Hline.
    apply list_elem_of_In, in_map_iff in Hline as (row & <- & _).
    apply List.length_map.
  - intros other Hother. apply lookup_insert_ne. congruence.
Qed.

(** X28.  The header is the fourteen fixed columns, in their fixed order,
    followed by the other fields in increasing order: the columns after
    the fixed ones are sorted, and they are exactly the members of
    [all_fields] that are not fixed columns. *)
Theorem save_progress_columns (rows : list record)
    (all_fields : gset string) (filename : string)
    (sheets : gmap string Sheet) :
  rows <> [] ->
  exists dynamic body,
    save_progress rows all_fields filename sheets !! filename
    = Some {| sheet_columns := (fixed_columns ++ dynamic)%list;
              sheet_body := body |}
    /\ Sorted str_le dynamic
    /\ forall c, c ∈ dynamic <-> c ∈ all_fields /\ c ∉ fixed_columns.
Proof.
  intros Hrows. rewrite (save_progress_rows _ _ _ _ Hrows). cbn zeta.
  eexists _, _. split; [apply lookup_insert_eq|]. split.
  - apply sorted_Sorted.
  - apply dynamic_columns.
Qed.

Lemma sub_newlines_single_line (s : string) (skip : nat) :
  string_forall (fun c => negb (Ascii.eqb c newline)) (sub_newlines skip s)
  = true.
Proof.
  revert skip. induction s as [|c s IH]; intros skip; [reflexivity|].
  cbn [sub_newlines]. destruct skip as [|k]; [|apply IH].
  destruct (is_space c) eqn:Hsp.
  - destruct (existsb _ _); [cbn [string_forall]; rewrite IH; reflexivity|].
    destruct (Ascii.eqb c newline) eqn:Hnl; cbn [string_forall];
      rewrite IH; [reflexivity|rewrite Hnl; reflexivity].
  - cbn [string_forall]. rewrite IH.
    destruct (Ascii.eqb_spec c newline) as [->|_]; [discriminate|reflexivity].
Qed.

Lemma lstrip_by_forall (p q : ascii -> bool) (s : string) :
  string_forall q s = true -> string_forall q (lstrip_by p s) = true.
Proof.
  induction s as [|c s IH]; [reflexivity|].
  intros Hs. cbn [lstrip_by]. destruct (p c); [|exact Hs].
  cbn [string_forall] in Hs. apply andb_true_iff in Hs as [_ Hs]. auto.
Qed.

Lemma rstrip_by_forall (p q : ascii -> bool) (s : string) :
  string_forall q s = true -> string_forall q (rstrip_by p s) = true.
Proof.
  induction s as [|c s IH]; [reflexivity|].
  cbn [string_forall]. intros [Hc Hs]%andb_true_iff. specialize (IH Hs).
  cbn [rstrip_by]. destruct (rstrip_by p s) as [|d r].
  - destruct (p c); [reflexivity|]. cbn [string_forall]. rewrite Hc. reflexivity.
  - cbn [string_forall] in *. rewrite Hc. exact IH.
Qed.

Lemma strip_idempotent (s : string) : strip (strip s) = strip s.
Proof.
  pose proof (strip_head s) as Hhead. unfold strip at 1.
  destruct (strip s) as [|c r] eqn:Hs; [reflexivity|].
  cbn [lstrip_by]. rewrite Hhead, <- Hs. unfold strip.
  apply rstrip_by_idem.
Qed.

Lemma clean_cell_clean (s : string) : clean (clean_cell s).
Proof.
  unfold clean, clean_cell. split; [|apply strip_idempotent].
  unfold strip. apply rstrip_by_forall, lstrip_by_forall,
    sub_newlines_single_line.
Qed.

Lemma cell_clean (frame_columns : gset string) (dtypes : string -> dtype)
    (row : record) (c : string) :
  clean (cell frame_columns dtypes row c).
Proof.
  unfold cell. repeat case_match; try apply clean_cell_clean.
  split; reflexivity.
Qed.

(** X29.  Every cell of the sheet that [save_progress] writes is a single
    line with no white space at either end: it contains no newline
    character, and stripping it changes nothing. *)
Theorem save_progress_cells_clean (rows : list record)
    (all_fields : gset string) (filename : string)
    (sheets : gmap string Sheet) :
  rows <> [] ->
  exists sheet,
    save_progress rows all_fields filename sheets !! filename = Some sheet
    /\ Forall (Forall clean) (sheet_body sheet).
Proof.
  intros Hrows. rewrite (save_progress_rows _ _ _ _ Hrows). cbn zeta.
  eexists. split; [apply lookup_insert_eq|]. cbn [sheet_body].
  apply Forall_forall. intros line Hline.
  apply list_elem_of_In, in_map_iff in Hline as (row & <- & _).
  apply Forall_forall. intros s Hs.
  apply list_elem_of_In, in_map_iff in Hs as (c & <- & _).
  apply cell_clean.
Qed.

Lemma column_dtype_float64 (rows : list record) (c : string) :
  column_dtype rows c
  = if bool_decide
         (Forall (fun r : record => r !! c = None \/ r !! c = Some None) rows
          /\ Exists (fun r : record => r !! c = None) rows)
    then float64 else object.
Proof.
  unfold column_dtype.
  assert (Hall : forallb (fun row : record =>
                            match row !! c with
                            | Some (Some _) => false
                            | _ => true
                            end) rows = true
                 <-> Forall (fun r : record => r !! c = None \/ r !! c = Some None)
                       rows).
  { rewrite forallb_forall, Forall_forall. split; intros H r Hr.
    - apply list_elem_of_In in Hr. specialize (H r Hr).
      destruct (r !! c) as [[v|]|]; [discriminate|right|left]; reflexivity.
    - apply list_elem_of_In in Hr. specialize (H r Hr).
      destruct H as [->| ->]; reflexivity. }
  assert (Hsome : existsb (fun row : record =>
                             match row !! c with None => true | _ => false end)
                    rows = true
                  <-> Exists (fun r : record => r !! c = None) rows).
  { rewrite existsb_exists, Exists_exists. split; intros (r & Hr & H).
    - exists r. split; [apply list_elem_of_In; exact Hr|].
      destruct (r !! c); [discriminate|reflexivity].
    - exists r. split; [apply list_elem_of_In; exact Hr|]. rewrite H. reflexivity. }
  destruct (forallb _ rows) eqn:Hf; destruct (existsb _ rows) eqn:He;
    cbn [andb]; case_bool_decide as Hd; try reflexivity.
  - exfalso. apply Hd. split; [apply Hall|apply Hsome]; reflexivity.
  - destruct Hd as [_ Hd]. apply Hsome in Hd. discriminate.
  - destruct Hd as [Hd _]. apply Hall in Hd. discriminate.
  - destruct Hd as [Hd _]. apply Hall in Hd. discriminate.
Qed.

(** X30.  Where a value ends up: for the [i]-th row and a column [c] that
    is fixed or in [all_fields], the sheet has the column [c] at some
    position [j], and the cell of line [i] at [j] is the cleaned text of
    the value.  For a value [None] it is [None] in a column of objects and
    [nan] in a column inferred to hold floats, that is, when no row has a
    string for the key and some row lacks it.  For a row without the key
    it is [nan] when another row has the key and empty when none has. *)
Theorem save_progress_cell_lookup (rows : list record)
    (all_fields : gset string) (filename : string)
    (sheets : gmap string Sheet) (i : nat) (row : record) (c : string) :
  rows !! i = Some row ->
  c ∈ fixed_columns \/ c ∈ all_fields ->
  exists sheet j line,
    save_progress rows all_fields filename sheets !! filename = Some sheet
    /\ sheet_columns sheet !! j = Some c
    /\ sheet_body sheet !! i = Some line
    /\ line !! j
       = Some match row !! c with
              | Some (Some value) => clean_cell value
              | Some None =>
                  if bool_decide
                       (Forall (fun r : record => r !! c = None \/ r !! c = Some None)
                          rows
                        /\ Exists (fun r : record => r !! c = None) rows)
                  then "nan" else "None"
              | None => if bool_decide (Exists (fun r : record => is_Some (r !! c)) rows)
                        then "nan" else ""
              end.
Proof.
  intros Hrow Hc.
  assert (Hrows : rows <> []) by (intros ->; discriminate).
  rewrite (save_progress_rows _ _ _ _ Hrows). cbn zeta.
  set (cols := (fixed_columns ++ _)%list).
  assert (Hin : c ∈ cols).
  { subst cols. apply elem_of_app.
    destruct (decide (c ∈ fixed_columns)) as [Hf|Hf]; [left; exact Hf|right].
    apply dynamic_columns. split; [|exact Hf].
    destruct Hc as [Hc|Hc]; [contradiction|exact Hc]. }
  apply list_elem_of_lookup in Hin as [j Hj].
  eexists _, j, _. split; [apply lookup_insert_eq|].
  cbn [sheet_columns sheet_body]. split; [exact Hj|].
  split; [rewrite lookup_map, Hrow; reflexivity|].
  rewrite lookup_map, Hj. cbn [fmap option_fmap option_map]. f_equal.
  unfold cell. destruct (row !! c) as [[value|]|]; [reflexivity| |].
  - rewrite column_dtype_float64.
    case_bool_decide; reflexivity.
  - assert (Hiff : c ∈ ⋃ (map dom rows)
                   <-> Exists (fun r : record => is_Some (r !! c)) rows).
    { clear. induction rows as [|r rows IH]; cbn [map union_list foldr].
      - rewrite elem_of_empty, Exists_nil. reflexivity.
      - rewrite elem_of_union, Exists_cons, elem_of_dom, IH. reflexivity. }
    repeat case_bool_decide; try reflexivity; tauto.
Qed.

Lemma save_progress_rectangular_witness :
  exists sheet,
    save_progress sample_rows {[ "shot_id"; "director"; "lens" ]}
      "out/shots.xlsx" ∅ !! "out/shots.xlsx" = Some sheet
    /\ NoDup (sheet_columns sheet)
    /\ List.length (sheet_body sheet) = List.length sample_rows
    /\ Forall (fun line : list string =>
                 List.length line = List.length (sheet_columns sheet))
         (sheet_body sheet)
    /\ forall other, other <> "out/shots.xlsx" ->
         save_progress sample_rows {[ "shot_id"; "director"; "lens" ]}
           "out/shots.xlsx" ∅ !! other
         = (∅ : gmap string Sheet) !! other.
Proof.
  apply (save_progress_rectangular sample_rows
           {[ "shot_id"; "director"; "lens" ]} "out/shots.xlsx" ∅).
  unfold sample_rows. discriminate.
Defined.

Lemma save_progress_columns_witness :
  exists dynamic body,
    save_progress sample_rows {[ "shot_id"; "lens"; "director" ]}
      "out/shots.xlsx" ∅ !! "out/shots.xlsx"
    = Some {| sheet_columns := (fixed_columns ++ dynamic)%list;
              sheet_body := body |}
    /\ Sorted str_le dynamic
    /\ forall c, c ∈ dynamic
                 <-> c ∈ ({[ "shot_id"; "lens"; "director" ]} : gset string)
                     /\ c ∉ fixed_columns.
Proof.
  apply (save_progress_columns sample_rows
           {[ "shot_id"; "lens"; "director" ]} "out/shots.xlsx" ∅).
  unfold sample_rows. discriminate.
Defined.

Lemma save_progress_cells_clean_witness :
  exists sheet,
    save_progress sample_rows {[ "shot_id"; "lens"; "director" ]}
      "out/shots.xlsx" ∅ !! "out/shots.xlsx" = Some sheet
    /\ Forall (Forall clean) (sheet_body sheet).
Proof.
  apply (save_progress_cells_clean sample_rows
           {[ "shot_id"; "lens"; "director" ]} "out/shots.xlsx" ∅).
  unfold sample_rows. discriminate.
Defined.

Lemma save_progress_cell_lookup_witness :
  exists sheet j line,
    save_progress sample_rows {[ "shot_id"; "lens"; "director" ]}
      "out/shots.xlsx" ∅ !! "out/shots.xlsx" = Some sheet
    /\ sheet_columns sheet !! j = Some "lens"
    /\ sheet_body sheet !! 1%nat = Some line
    /\ line !! j = Some "50mm prime".
Proof.
  assert (Hfield : "lens" ∈ fixed_columns
                   \/ "lens" ∈ ({[ "shot_id"; "lens"; "director" ]} : gset string)).
  { right. apply (bool_decide_unpack _). vm_compute. reflexivity. }
  destruct (save_progress_cell_lookup sample_rows
              {[ "shot_id"; "lens"; "director" ]} "out/shots.xlsx" ∅ 1
              {[ "shot_id" := Some "EF34GH";
                 "lens" := Some (String newline
                                   ("  50mm " ++ String newline " prime ")) ]}
              "lens" eq_refl Hfield)
    as (sheet & j & line & Hsheet & Hcol & Hline & Hcell).
  exists sheet, j, line. repeat split; [exact Hsheet|exact Hcol|exact Hline|].
  exact Hcell.
Defined.

(** In [sample_rows] the column [thumb_src] holds a [None] and a missing
    entry, so both are written as [nan]. *)
Example sample_sheet :
  option_map (fun sheet => (drop 14 (sheet_columns sheet), map (drop 14) (sheet_body sheet),
                            map (take 1) (sheet_body sheet),
                            map (fun line => line !! 6%nat) (sheet_body sheet)))
    (save_progress sample_rows {[ "shot_id"; "lens"; "director"; "thumb_src" ]}
       "out/shots.xlsx" ∅ !! "out/shots.xlsx")
  = Some (["director"; "lens"],
          [["Michael Mann"; "nan"]; ["nan"; "50mm prime"]],
          [["AB12CD"]; ["EF34GH"]],
          [Some "nan"; Some "nan"]).
Proof. vm_compute. reflexivity. Qed.

(** How [None] is written: with a missing entry and no string in the
    column ([x]) it is [nan]; beside a string ([y]) and in a column of
    [None] alone ([z]) it is [None]. *)
Example none_cells :
  option_map (fun sheet => (drop 14 (sheet_columns sheet),
                            map (drop 14) (sheet_body sheet)))
    (save_progress
       [ {[ "x" := None; "y" := None; "z" := None ]};
         {[ "y" := Some "a"; "z" := None ]} ]
       {[ "x"; "y"; "z" ]} "out/shots.xlsx" ∅ !! "out/shots.xlsx")
  = Some (["x"; "y"; "z"],
          [["nan"; "None"; "None"]; ["nan"; "a"; "None"]]).
Proof. vm_compute. reflexivity. Qed.
